(** * vercel-domains: the search route and the client search coordinator

    A shallow embedding of the two source files that carry the search logic:

    - [app/api/search/route.ts], in both of its revisions: the plain TLD
      fan-out ([RoutePlain]) and the AI-assisted one with the label cache
      and the TLD cache ([Route]). The handler runs in a small monad
      ([Async]) over the module-level caches, the readings of the clock
      and the log of the calls that leave the process; the text generation
      gateway and the registrar SDK are the fields of [Providers].
    - [app/page.tsx]: the payload normaliser, and the [Home] component as
      a transition system over its state cells, refs, URL parameter,
      pending timers and requests in flight ([Page]).

    JavaScript strings are embedded as [string]: a character is one code
    unit in the Latin-1 range (0..255), which is closed under
    [toLowerCase], and on which [trim] and the regular expression class
    [\s] are the set written out in [JS.isWhiteSpace].

    The definitions come first; the facts follow, by component:
    [PayloadFacts], [StringFacts], [TldFacts], [RouteFacts], [LabelFacts]
    and [PageFacts]. *)

From Stdlib Require Import ZArith Lia Bool List Ascii String.
From stdpp Require Import base option list gmap strings.

Import ListNotations.
Local Open Scope Z_scope.

(* ===================================================================== *)
(** * JavaScript primitives used by the sources                           *)
(* ===================================================================== *)

Module JS.

Definition chars (s : string) : list ascii := list_ascii_of_string s.
Definition str (l : list ascii) : string := string_of_list_ascii l.

Definition code (c : ascii) : N := N_of_ascii c.

(** [WhiteSpace] and [LineTerminator] code units below 256: TAB, LF, VT,
    FF, CR, SPACE and NO-BREAK SPACE. This is the set removed by
    [String.prototype.trim] and matched by [\s]. *)
Definition isWhiteSpace (c : ascii) : bool :=
  let n := code c in
  ((9 <=? n) && (n <=? 13) || (n =? 32) || (n =? 160))%N.

(** [String.prototype.toLowerCase], one code unit: A-Z, and the Latin-1
    capitals U+00C0..U+00DE except the multiplication sign U+00D7. *)
Definition lowerChar (c : ascii) : ascii :=
  let n := code c in
  if ((65 <=? n) && (n <=? 90)
      || (192 <=? n) && (n <=? 222) && negb (n =? 215))%N
  then ascii_of_N (n + 32) else c.

Definition toLowerCase (s : string) : string := str (map lowerChar (chars s)).

(** Remove the longest prefix, and the longest suffix, whose elements
    satisfy [p]. *)
Fixpoint dropWhile {A} (p : A -> bool) (l : list A) : list A :=
  match l with
  | [] => []
  | x :: l' => if p x then dropWhile p l' else l
  end.

Definition dropWhileEnd {A} (p : A -> bool) (l : list A) : list A :=
  rev (dropWhile p (rev l)).

(** The first element, when there is one, does not satisfy [p]. *)
Definition headAvoids {A} (p : A -> bool) (l : list A) : Prop :=
  match l with
  | x :: _ => p x = false
  | [] => True
  end.

Definition trimChars (l : list ascii) : list ascii :=
  dropWhileEnd isWhiteSpace (dropWhile isWhiteSpace l).

Definition trim (s : string) : string := str (trimChars (chars s)).

(** [s.slice(0, n)] for a non-negative literal [n]. *)
Definition sliceTo (n : nat) (s : string) : string := str (firstn n (chars s)).

Definition length (s : string) : nat := String.length s.

(** [s.includes(c)] for a one-character needle. *)
Definition includesChar (s : string) (c : ascii) : bool :=
  existsb (Ascii.eqb c) (chars s).

(** Truthiness of a string: [!s] holds exactly for the empty string. *)
Definition truthy (s : string) : bool :=
  match s with EmptyString => false | String _ _ => true end.

(** [a || b] on strings. *)
Definition orElse (a b : string) : string := if truthy a then a else b.

(** [Array.prototype.slice(0, end)] for an integer [end]: a negative
    [end] counts from the end of the array. *)
Definition arraySlice0 {A} (l : list A) (e : Z) : list A :=
  let len := Z.of_nat (List.length l) in
  let k := if e <? 0 then Z.max (len + e) 0 else Z.min e len in
  firstn (Z.to_nat k) l.

(** [Array.prototype.includes] on an array of strings. *)
Definition arrayIncludes (l : list string) (x : string) : bool :=
  existsb (String.eqb x) l.

End JS.

(* ===================================================================== *)
(** * The regular expressions of [route.ts], as the replacements they do  *)
(* ===================================================================== *)

Module Re.
Import JS.

Definition dot : ascii := "."%char.
Definition space : ascii := " "%char.
Definition hyphen : ascii := "-"%char.
Definition quote : ascii := "034"%char.

Definition isDot (c : ascii) : bool := Ascii.eqb c dot.
Definition isHyphen (c : ascii) : bool := Ascii.eqb c hyphen.
Definition isQuote (c : ascii) : bool := Ascii.eqb c quote.

(** The class [[a-z0-9-]]. *)
Definition isLabelChar (c : ascii) : bool :=
  let n := code c in
  ((97 <=? n) && (n <=? 122) || (48 <=? n) && (n <=? 57) || (n =? 45))%N.

(** [LEADING_DOT_RE = /^\./]: [s.replace(LEADING_DOT_RE, "")] removes one
    leading dot. *)
Definition dropLeadingDot (l : list ascii) : list ascii :=
  match l with
  | c :: l' => if isDot c then l' else l
  | [] => []
  end.

Definition replace_LEADING_DOT_RE (s : string) : string :=
  str (dropLeadingDot (chars s)).

(** [SURROUNDING_QUOTE_RE = /^"|"$/g]: a quote at the start, and a quote
    at the end of what follows it. *)
Definition dropFirstQuote (l : list ascii) : list ascii :=
  match l with
  | c :: l' => if isQuote c then l' else l
  | [] => []
  end.

Definition dropLastQuote (l : list ascii) : list ascii :=
  rev (dropFirstQuote (rev l)).

Definition replace_SURROUNDING_QUOTE_RE (s : string) : string :=
  str (dropLastQuote (dropFirstQuote (chars s))).

(** [LEADING_DOTS_RE = /^\.+/]: every leading dot. *)
Definition replace_LEADING_DOTS_RE (s : string) : string :=
  str (dropWhile isDot (chars s)).

(** [WHITESPACE_RE = /\s+/]: the expression has no [g] flag, so [replace]
    removes only the first (leftmost, longest) run of white space. *)
Fixpoint dropFirstWhitespaceRun (l : list ascii) : list ascii :=
  match l with
  | [] => []
  | c :: l' =>
      if isWhiteSpace c then dropWhile isWhiteSpace l'
      else c :: dropFirstWhitespaceRun l'
  end.

Definition replace_WHITESPACE_RE (s : string) : string :=
  str (dropFirstWhitespaceRun (chars s)).

(** [WHITESPACE_RE.test(s)]. *)
Definition test_WHITESPACE_RE (s : string) : bool :=
  existsb isWhiteSpace (chars s).

(** [NON_LABEL_RE = /[^a-z0-9-]/g]. *)
Definition replace_NON_LABEL_RE (s : string) : string :=
  str (List.filter isLabelChar (chars s)).

(** [TRIM_HYPHEN_RE = /^-+|-+$/g]. *)
Definition replace_TRIM_HYPHEN_RE (s : string) : string :=
  str (dropWhileEnd isHyphen (dropWhile isHyphen (chars s))).

End Re.

(* ===================================================================== *)
(** * JSON values, as [request.json()] and [res.json()] produce them      *)
(* ===================================================================== *)

Module Json.

#[local] Set Warnings "-register-all".

Inductive value : Type :=
| Undefined
| Null
| Bool (b : bool)
| Num (n : Z)
| Str (s : string)
| Arr (items : list value)
| Obj (fields : list (string * value)).

Fixpoint lookupField (k : string) (fields : list (string * value)) : value :=
  match fields with
  | [] => Undefined
  | (k', v) :: rest => if String.eqb k k' then v else lookupField k rest
  end.

(** [v.k] where [v] is neither [null] nor [undefined]: a property that
    is absent reads as [undefined]; numbers, booleans, strings and
    arrays have none of the properties the sources read. *)
Definition get (v : value) (k : string) : value :=
  match v with
  | Obj fields => lookupField k fields
  | _ => Undefined
  end.

Definition isArray (v : value) : bool :=
  match v with Arr _ => true | _ => false end.

(** [typeof v === "object"] *)
Definition typeofObject (v : value) : bool :=
  match v with Null | Arr _ | Obj _ => true | _ => false end.

Definition truthy (v : value) : bool :=
  match v with
  | Undefined | Null => false
  | Bool b => b
  | Num n => negb (n =? 0)
  | Str s => JS.truthy s
  | Arr _ | Obj _ => true
  end.

(** [v === null || v === undefined] *)
Definition nullish (v : value) : bool :=
  match v with Undefined | Null => true | _ => false end.

End Json.

(* ===================================================================== *)
(** * [app/api/search/route.ts]: the request handler and its helpers      *)
(* ===================================================================== *)

(** A promise settles with a value or is rejected with an error, of which
    the handler only ever reads the message. *)
Inductive outcome (A : Type) : Type :=
| Resolved (a : A)
| Rejected (message : string).
Arguments Resolved {A} a.
Arguments Rejected {A} message.

(** What the registrar SDK hands back for the supported TLDs: an array of
    strings, or something that is not an array. *)
Inductive supportedTlds : Type :=
| TldArray (tlds : list string)
| TldNotArray.

(** The calls that leave the process. *)
Inductive Call : Type :=
| CallGenerateText (prompt : string)
| CallGetSupportedTlds (teamId : option string)
| CallGetBulkAvailability (teamId : option string) (domains : list string).

(** The external collaborators: the wall clock ([Date.now()], indexed by
    the number of readings taken so far), the text generation gateway and
    the two registrar endpoints. *)
Record Providers : Type := {
  clock : nat -> Z;
  generateText : string -> outcome string;
  sdkGetSupportedTlds : option string -> outcome supportedTlds;
  sdkGetBulkAvailability : option string -> list string -> outcome Json.value
}.

(** The module-level state of the route, plus the log of outgoing calls. *)
Record World : Type := {
  labelCache : gmap string (string * Z);
  tldsCache : option (list string * Z);
  ticks : nat;
  calls : list Call
}.

Record Response : Type := { status : Z; body : Json.value }.

Module Async.

Definition M (A : Type) : Type := World -> outcome A * World.

Definition ret {A} (a : A) : M A := fun w => (Resolved a, w).

Definition throw {A} (message : string) : M A := fun w => (Rejected message, w).

Definition bind {A B} (m : M A) (k : A -> M B) : M B :=
  fun w =>
    match m w with
    | (Resolved a, w') => k a w'
    | (Rejected e, w') => (Rejected e, w')
    end.

Definition tryCatch {A} (m : M A) (handler : string -> M A) : M A :=
  fun w =>
    match m w with
    | (Resolved a, w') => (Resolved a, w')
    | (Rejected e, w') => handler e w'
    end.

Definition dateNow (P : Providers) : M Z :=
  fun w =>
    (Resolved (clock P (ticks w)),
     {| labelCache := labelCache w; tldsCache := tldsCache w;
        ticks := S (ticks w); calls := calls w |}).

Definition emit (c : Call) : M unit :=
  fun w =>
    (Resolved tt,
     {| labelCache := labelCache w; tldsCache := tldsCache w;
        ticks := ticks w; calls := calls w ++ [c] |}).

(** [await p]: the promise settles one way or the other. *)
Definition await {A} (p : outcome A) : M A := fun w => (p, w).

Definition getLabelCache (k : string) : M (option (string * Z)) :=
  fun w => (Resolved (labelCache w !! k), w).

Definition setLabelCache (k : string) (v : string * Z) : M unit :=
  fun w =>
    (Resolved tt,
     {| labelCache := <[k := v]> (labelCache w); tldsCache := tldsCache w;
        ticks := ticks w; calls := calls w |}).

Definition getTldsCache : M (option (list string * Z)) :=
  fun w => (Resolved (tldsCache w), w).

Definition setTldsCache (v : list string * Z) : M unit :=
  fun w =>
    (Resolved tt,
     {| labelCache := labelCache w; tldsCache := Some v;
        ticks := ticks w; calls := calls w |}).

End Async.

#[global] Instance async_ret : MRet Async.M := @Async.ret.
#[global] Instance async_bind : MBind Async.M := fun A B k m => Async.bind m k.

Module Route.
Import JS Re Json Async.

Definition LABEL_CACHE_TTL : Z := 1000 * 60 * 10.
Definition TLDS_CACHE_TTL : Z := 1000 * 60 * 5.

Definition nl : string := String "010"%char "".
Definition dq : string := String quote "".

Definition generateChatTitleInstructions : string :=
  "Generate a short, brandable domain phrase (max 30 characters) inspired by the context. Make it sound like a real domain concept (e.g. reorder or merge words such as "
  +:+ dq +:+ "mydogparty" +:+ dq +:+
  "), keep it lowercase, avoid quotes or special characters, and never append TLDs. If the context is vague, invent an appealing domainable idea.".

Definition domainLabelFromTitle (input : string) : string :=
  if negb (JS.truthy input) then ""
  else
    let s := trim (toLowerCase input) in
    let s := replace_SURROUNDING_QUOTE_RE s in
    let s := replace_LEADING_DOTS_RE s in
    let s := replace_WHITESPACE_RE s in
    let s := replace_NON_LABEL_RE s in
    let s := replace_TRIM_HYPHEN_RE s in
    if (63 <? JS.length s)%nat then sliceTo 63 s else s.

Definition COMMON : list string :=
  ["com"; "net"; "org"; "dev"; "io"; "app"; "ai"; "co"; "xyz"; "tech";
   "site"; "online"; "me"; "info"; "store"].

(** The [for (const c of COMMON)] loop, from the accumulator [preferred]. *)
Definition pickPreferred (tlds : list string) (common preferred : list string)
  : list string :=
  fold_left
    (fun preferred c =>
       if arrayIncludes tlds c && negb (arrayIncludes preferred c)
       then preferred ++ [c] else preferred)
    common preferred.

Definition pickCandidateTlds (tlds : list string) (limit : Z) : list string :=
  let preferred := pickPreferred tlds COMMON [] in
  let rest := List.filter (fun t => negb (arrayIncludes preferred t)) tlds in
  arraySlice0 (preferred ++ rest) limit.

Definition buildDomainsToCheck (looksLikeDomain : bool)
    (normalizedQ searchLabel : string) (tlds : list string) : list string :=
  if looksLikeDomain then [normalizedQ]
  else
    let finalTlds := pickCandidateTlds tlds 25 in
    map (fun t => searchLabel +:+ "." +:+ t) finalTlds.

(** [q.includes(".") && !q.includes(" ")] *)
Definition looksLikeDomain (q : string) : bool :=
  includesChar q dot && negb (includesChar q space).

(** [body.q] and [body.teamId]: reading a property of [null] throws. *)
Definition readProp (v : value) (k : string) : M value :=
  match v with
  | Null | Undefined =>
      throw ("Cannot read properties of null (reading '" +:+ k +:+ "')")
  | _ => mret (get v k)
  end.

Definition queryOf (bq : value) : string :=
  match bq with Str s => toLowerCase (trim s) | _ => "" end.

Definition teamIdOf (bt : value) : option string :=
  match bt with
  | Str s => if JS.truthy s then Some s else None
  | _ => None
  end.

Definition domainsBody (v : value) : value := Obj [("domains", v)].
Definition errorBody (message : string) : value := Obj [("error", Str message)].

Definition ok (v : value) : Response := {| status := 200; body := v |}.

Section WithProviders.
Context (P : Providers).

Definition fallbackLabelOf (normalizedQ fallbackLabel : string) : string :=
  orElse (replace_WHITESPACE_RE normalizedQ) fallbackLabel.

Definition promptOf (originalQ : string) : string :=
  generateChatTitleInstructions +:+ nl +:+ nl +:+ "<context>" +:+ nl +:+
  sliceTo 500 originalQ +:+ nl +:+ "</context>".

Definition finalTitleOf (title : string) : string :=
  let cleaned := replace_SURROUNDING_QUOTE_RE (trim (orElse title "")) in
  if (30 <? JS.length cleaned)%nat
  then trim (sliceTo 27 cleaned) +:+ "..."
  else cleaned.

(** The [try { ... } catch (e) { ... }] of [getSearchLabelFromQuery]. *)
Definition generateLabel (originalQ normalizedQ fallbackLabel : string)
    (now : Z) : M string :=
  tryCatch
    (let prompt := promptOf originalQ in
     emit (CallGenerateText prompt);;
     title ← await (generateText P prompt);
     let label := domainLabelFromTitle (finalTitleOf title) in
     if JS.truthy label then
       setLabelCache originalQ (label, now);; mret label
     else
       let fallback := fallbackLabelOf normalizedQ fallbackLabel in
       setLabelCache originalQ (fallback, now);; mret fallback)
    (fun _ =>
       let fallback := fallbackLabelOf normalizedQ fallbackLabel in
       setLabelCache originalQ (fallback, now);; mret fallback).

Definition getSearchLabelFromQuery
    (originalQ normalizedQ fallbackLabel : string) : M string :=
  let multiWord := test_WHITESPACE_RE originalQ in
  if negb multiWord then mret normalizedQ
  else
    now ← dateNow P;
    cached ← getLabelCache originalQ;
    match cached with
    | Some (label, ts) =>
        if now - ts <? LABEL_CACHE_TTL then mret label
        else generateLabel originalQ normalizedQ fallbackLabel now
    | None => generateLabel originalQ normalizedQ fallbackLabel now
    end.

(** [supported.map((t) => String(t).replace(LEADING_DOT_RE, "")).filter(Boolean)] *)
Definition tldsOf (supported : supportedTlds) : list string :=
  match supported with
  | TldArray l => List.filter JS.truthy (map replace_LEADING_DOT_RE l)
  | TldNotArray => []
  end.

Definition fetchSupportedTlds (teamId : option string) : M (list string) :=
  emit (CallGetSupportedTlds teamId);;
  supported ← await (sdkGetSupportedTlds P teamId);
  let tlds := tldsOf supported in
  now ← dateNow P;
  setTldsCache (tlds, now);;
  mret tlds.

Definition getSupportedTlds (teamId : option string) : M (list string) :=
  now ← dateNow P;
  cached ← getTldsCache;
  match cached with
  | Some (tlds, ts) =>
      if now - ts <? TLDS_CACHE_TTL then mret tlds
      else fetchSupportedTlds teamId
  | None => fetchSupportedTlds teamId
  end.

Definition bulkAvailability (teamId : option string) (domains : list string)
  : M value :=
  emit (CallGetBulkAvailability teamId domains);;
  await (sdkGetBulkAvailability P teamId domains).

(** The body of the handler's [try] block. [request] is [None] when
    [request.json()] rejects, which the handler turns into [{}]. The
    two promises under [Promise.all] touch disjoint state; they are
    started in the order written. *)
Definition handle (request : option value) : M Response :=
  let body := match request with Some v => v | None => Obj [] end in
  bq ← readProp body "q";
  let q := queryOf bq in
  bt ← readProp body "teamId";
  let teamId := teamIdOf bt in
  if negb (JS.truthy q) then mret (ok (domainsBody (Arr [])))
  else
    let normalizedQ := replace_LEADING_DOT_RE q in
    searchLabel ← getSearchLabelFromQuery q normalizedQ "";
    tlds ← getSupportedTlds teamId;
    let domainsToCheck :=
      buildDomainsToCheck (looksLikeDomain q) normalizedQ searchLabel tlds in
    availability ← bulkAvailability teamId domainsToCheck;
    mret (ok (domainsBody availability)).

Definition POST (request : option value) : M Response :=
  tryCatch (handle request)
    (fun message => mret {| status := 500; body := errorBody message |}).

End WithProviders.

End Route.

(** The earlier revision of the route: no label synthesis and no caches;
    the supported TLDs are fetched on every request and the fan-out takes
    up to 50 TLDs. *)
Module RoutePlain.
Import JS Re Json Async.

Definition pickCandidateTlds (tlds : list string) (limit : Z) : list string :=
  let preferred := Route.pickPreferred tlds Route.COMMON [] in
  let rest := List.filter (fun t => negb (arrayIncludes preferred t)) tlds in
  arraySlice0 (preferred ++ rest) limit.

Section WithProviders.
Context (P : Providers).

Definition handle (request : option value) : M Response :=
  let body := match request with Some v => v | None => Obj [] end in
  bq ← Route.readProp body "q";
  let q := Route.queryOf bq in
  bt ← Route.readProp body "teamId";
  let teamId := Route.teamIdOf bt in
  if negb (JS.truthy q) then mret (Route.ok (Route.domainsBody (Arr [])))
  else
    let normalizedQ := replace_LEADING_DOT_RE q in
    emit (CallGetSupportedTlds teamId);;
    supported ← await (sdkGetSupportedTlds P teamId);
    let tlds := Route.tldsOf supported in
    let looksLikeDomain := Route.looksLikeDomain q in
    let domainsToCheck :=
      if looksLikeDomain then [normalizedQ]
      else
        let finalTlds := pickCandidateTlds tlds 50 in
        map (fun t => normalizedQ +:+ "." +:+ t) finalTlds in
    emit (CallGetBulkAvailability teamId domainsToCheck);;
    availability ← await (sdkGetBulkAvailability P teamId domainsToCheck);
    mret (Route.ok (Route.domainsBody availability)).

Definition POST (request : option value) : M Response :=
  tryCatch (handle request)
    (fun message =>
       mret {| status := 500; body := Route.errorBody message |}).

End WithProviders.

End RoutePlain.

(* ===================================================================== *)
(** * [app/page.tsx]: the payload normaliser and the search coordinator   *)
(* ===================================================================== *)

Module Page.
Import JS Json.

(** The [for (const c of candidates)] loop. *)
Fixpoint firstArray (candidates : list value) : option (list value) :=
  match candidates with
  | [] => None
  | Arr c :: _ => Some c
  | _ :: rest => firstArray rest
  end.

Definition candidatesOf (obj : value) : list value :=
  [ get obj "results";
    get obj "domains";
    if truthy (get obj "domains") && typeofObject (get obj "domains")
    then get (get obj "domains") "results"
    else Undefined ].

(** The third candidate, [payload.domains.results]: it is only read through
    a [domains] that is a non-null object. *)
Definition nestedResults (obj : value) : value :=
  match get obj "domains" with
  | Obj inner => lookupField "results" inner
  | _ => Undefined
  end.

Definition normalizeDomainPayload (payload : value) : list value :=
  match payload with
  | Arr items => items
  | _ =>
      if negb (truthy payload) || negb (typeofObject payload) then []
      else
        match firstArray (candidatesOf payload) with
        | Some c => c
        | None => [payload]
        end
  end.

(** [data?.domains ?? data ?? []] *)
Definition payloadOf (data : value) : value :=
  let domains := if nullish data then Undefined else get data "domains" in
  if negb (nullish domains) then domains
  else if negb (nullish data) then data
  else Arr [].

Definition SEARCH_CACHE_TTL : Z := 1000 * 60 * 2.

(** How a [fetch] of [/api/search] ends when it is not aborted: a body
    that parses as JSON, or a failure (network error, body not JSON). *)
Inductive fetchEnd : Type :=
| Responded (data : value)
| Failed.

(** The state of a mounted [Home] component: its three [useState] cells,
    its three refs, the [q] parameter of the page URL, and the browser
    side of things: pending timeouts (with the query their callback
    closes over), abort controllers already aborted, requests in flight
    (with their controller and query), and the log of requests sent.
    Timer and controller identities are drawn from the one counter
    [fresh]. [renderedQ] is React's side of the debounce effect: the
    value of [q] at the render whose effect ran last, against which the
    dependency [q] is compared. *)
Record Home : Type := {
  q : string;
  results : list value;
  loading : bool;
  searchCacheRef : gmap string (list value * Z);
  debounceRef : option nat;
  fetchAbortRef : option nat;
  urlQ : option string;
  timers : list (nat * string);
  aborted : gset nat;
  inflight : list (nat * string);
  fresh : nat;
  sent : list string;
  renderedQ : string
}.

Definition initial : Home :=
  {| q := ""; results := []; loading := false; searchCacheRef := ∅;
     debounceRef := None; fetchAbortRef := None; urlQ := None;
     timers := []; aborted := ∅; inflight := []; fresh := O; sent := [];
     renderedQ := "" |}.

Definition setQ (v : string) (h : Home) : Home :=
  {| q := v; results := results h; loading := loading h;
     searchCacheRef := searchCacheRef h; debounceRef := debounceRef h;
     fetchAbortRef := fetchAbortRef h; urlQ := urlQ h; timers := timers h;
     aborted := aborted h; inflight := inflight h; fresh := fresh h;
     sent := sent h; renderedQ := renderedQ h |}.

Definition setResults (r : list value) (h : Home) : Home :=
  {| q := q h; results := r; loading := loading h;
     searchCacheRef := searchCacheRef h; debounceRef := debounceRef h;
     fetchAbortRef := fetchAbortRef h; urlQ := urlQ h; timers := timers h;
     aborted := aborted h; inflight := inflight h; fresh := fresh h;
     sent := sent h; renderedQ := renderedQ h |}.

Definition setLoading (b : bool) (h : Home) : Home :=
  {| q := q h; results := results h; loading := b;
     searchCacheRef := searchCacheRef h; debounceRef := debounceRef h;
     fetchAbortRef := fetchAbortRef h; urlQ := urlQ h; timers := timers h;
     aborted := aborted h; inflight := inflight h; fresh := fresh h;
     sent := sent h; renderedQ := renderedQ h |}.

Definition setSearchCache (k : string) (v : list value * Z) (h : Home) : Home :=
  {| q := q h; results := results h; loading := loading h;
     searchCacheRef := <[k := v]> (searchCacheRef h);
     debounceRef := debounceRef h;
     fetchAbortRef := fetchAbortRef h; urlQ := urlQ h; timers := timers h;
     aborted := aborted h; inflight := inflight h; fresh := fresh h;
     sent := sent h; renderedQ := renderedQ h |}.

Definition setDebounceRef (r : option nat) (h : Home) : Home :=
  {| q := q h; results := results h; loading := loading h;
     searchCacheRef := searchCacheRef h; debounceRef := r;
     fetchAbortRef := fetchAbortRef h; urlQ := urlQ h; timers := timers h;
     aborted := aborted h; inflight := inflight h; fresh := fresh h;
     sent := sent h; renderedQ := renderedQ h |}.

Definition setFetchAbortRef (r : option nat) (h : Home) : Home :=
  {| q := q h; results := results h; loading := loading h;
     searchCacheRef := searchCacheRef h; debounceRef := debounceRef h;
     fetchAbortRef := r; urlQ := urlQ h; timers := timers h;
     aborted := aborted h; inflight := inflight h; fresh := fresh h;
     sent := sent h; renderedQ := renderedQ h |}.

Definition setUrlQ (u : option string) (h : Home) : Home :=
  {| q := q h; results := results h; loading := loading h;
     searchCacheRef := searchCacheRef h; debounceRef := debounceRef h;
     fetchAbortRef := fetchAbortRef h; urlQ := u; timers := timers h;
     aborted := aborted h; inflight := inflight h; fresh := fresh h;
     sent := sent h; renderedQ := renderedQ h |}.

Definition setTimers (t : list (nat * string)) (h : Home) : Home :=
  {| q := q h; results := results h; loading := loading h;
     searchCacheRef := searchCacheRef h; debounceRef := debounceRef h;
     fetchAbortRef := fetchAbortRef h; urlQ := urlQ h; timers := t;
     aborted := aborted h; inflight := inflight h; fresh := fresh h;
     sent := sent h; renderedQ := renderedQ h |}.

Definition setAborted (a : gset nat) (h : Home) : Home :=
  {| q := q h; results := results h; loading := loading h;
     searchCacheRef := searchCacheRef h; debounceRef := debounceRef h;
     fetchAbortRef := fetchAbortRef h; urlQ := urlQ h; timers := timers h;
     aborted := a; inflight := inflight h; fresh := fresh h;
     sent := sent h; renderedQ := renderedQ h |}.

Definition setInflight (i : list (nat * string)) (h : Home) : Home :=
  {| q := q h; results := results h; loading := loading h;
     searchCacheRef := searchCacheRef h; debounceRef := debounceRef h;
     fetchAbortRef := fetchAbortRef h; urlQ := urlQ h; timers := timers h;
     aborted := aborted h; inflight := i; fresh := fresh h;
     sent := sent h; renderedQ := renderedQ h |}.

Definition setFresh (n : nat) (h : Home) : Home :=
  {| q := q h; results := results h; loading := loading h;
     searchCacheRef := searchCacheRef h; debounceRef := debounceRef h;
     fetchAbortRef := fetchAbortRef h; urlQ := urlQ h; timers := timers h;
     aborted := aborted h; inflight := inflight h; fresh := n;
     sent := sent h; renderedQ := renderedQ h |}.

Definition setSent (l : list string) (h : Home) : Home :=
  {| q := q h; results := results h; loading := loading h;
     searchCacheRef := searchCacheRef h; debounceRef := debounceRef h;
     fetchAbortRef := fetchAbortRef h; urlQ := urlQ h; timers := timers h;
     aborted := aborted h; inflight := inflight h; fresh := fresh h;
     sent := l; renderedQ := renderedQ h |}.

Definition setRenderedQ (v : string) (h : Home) : Home :=
  {| q := q h; results := results h; loading := loading h;
     searchCacheRef := searchCacheRef h; debounceRef := debounceRef h;
     fetchAbortRef := fetchAbortRef h; urlQ := urlQ h; timers := timers h;
     aborted := aborted h; inflight := inflight h; fresh := fresh h;
     sent := sent h; renderedQ := v |}.

(** ** Browser primitives *)

Definition clearTimeout (id : nat) (h : Home) : Home :=
  setTimers (List.filter (fun t => negb (Nat.eqb (fst t) id)) (timers h)) h.

Definition abort (controller : nat) (h : Home) : Home :=
  setAborted ({[controller]} ∪ aborted h) h.

(** [url.searchParams.delete("q")] followed by [history.replaceState]. *)
Definition deleteUrlQ (h : Home) : Home := setUrlQ None h.

(** ** The closures of [Home] *)

Definition updateUrl (s : string) (h : Home) : Home :=
  if JS.truthy s then setUrlQ (Some s) h else setUrlQ None h.

Definition getCachedSearch (s : string) (now : Z) (h : Home)
  : option (list value) :=
  match searchCacheRef h !! s with
  | Some (r, ts) => if now - ts <? SEARCH_CACHE_TTL then Some r else None
  | None => None
  end.

(** [fetchDomains], from the point where the [fetch] settles: an aborted
    signal makes it reject with an [AbortError], which is caught. *)
Definition fetchDomains (controller : nat) (e : fetchEnd) (h : Home)
  : list value :=
  if bool_decide (controller ∈ aborted h) then []
  else
    match e with
    | Responded data => normalizeDomainPayload (payloadOf data)
    | Failed => []
    end.

(** [runSearch] up to its [await]: a fresh cache entry is rendered at
    once (an array, even an empty one, is truthy); otherwise the request
    is sent. *)
Definition runSearchStart (original : string) (controller : nat) (now : Z)
    (h : Home) : Home :=
  match getCachedSearch original now h with
  | Some cached =>
      let h := setResults cached h in
      let h := setLoading false h in
      updateUrl original h
  | None =>
      let h := setSent (sent h ++ [original]) h in
      setInflight (inflight h ++ [(controller, original)]) h
  end.

(** [runSearch] after its [await], with [r] the value of [fetchDomains]
    and [now] the reading of [Date.now()]. *)
Definition runSearchResume (original : string) (controller : nat)
    (r : list value) (now : Z) (h : Home) : Home :=
  let h := setSearchCache original (r, now) h in
  let h := if bool_decide (fetchAbortRef h = Some controller)
           then setFetchAbortRef None h else h in
  let h := setResults r h in
  let h := setLoading false h in
  updateUrl original h.

(** The lines shared by [onClear] and by the empty-query branch of the
    debounce effect. *)
Definition cancelPending (h : Home) : Home :=
  let h := match debounceRef h with
           | Some id => setDebounceRef None (clearTimeout id h)
           | None => h
           end in
  match fetchAbortRef h with
  | Some c => setFetchAbortRef None (abort c h)
  | None => h
  end.

(** The effect on [[q, runSearch]], run after [q] has changed to [v]
    (the clean-up of the previous run clears the same timer as the first
    lines of the body). *)
Definition debounceEffect (v : string) (h : Home) : Home :=
  let h := match debounceRef h with
           | Some id => clearTimeout id h
           | None => h
           end in
  if negb (JS.truthy v) then
    let h := cancelPending h in
    let h := setResults [] h in
    let h := setLoading false h in
    deleteUrlQ h
  else
    let h := setLoading true h in
    let id := fresh h in
    let h := setFresh (S id) h in
    let h := setTimers (timers h ++ [(id, v)]) h in
    setDebounceRef (Some id) h.

(** The debounce effect is due when [q] is not the value it last ran
    for: the dependency array is [[q, runSearch]], and [runSearch] never
    changes. *)
Definition effectDue (h : Home) : bool :=
  negb (String.eqb (q h) (renderedQ h)).

(** React commits the render of the current [q] and runs the effect. *)
Definition runEffect (h : Home) : Home :=
  setRenderedQ (q h) (debounceEffect (q h) h).

Definition flushEffect (h : Home) : Home :=
  if effectDue h then runEffect h else h.

(** [setQ(v)] from the input's [onChange]. The change event is a
    discrete React event: the re-render and the effect, when it is due,
    are flushed before the handler's task ends, so nothing else runs in
    between. *)
Definition change (v : string) (h : Home) : Home :=
  flushEffect (setQ v h).

(** The listener of the [inputgroup:clear] window event. It does its own
    reset and calls [setQ("")]; the event is no React event, so the
    re-render and the debounce effect for the empty query are left to a
    later task ([EffectRuns] below). *)
Definition onClear (h : Home) : Home :=
  let h := cancelPending h in
  let h := setQ "" h in
  let h := setResults [] h in
  let h := setLoading false h in
  deleteUrlQ h.

(** The callback given to [setTimeout]. The promise of [runSearch] never
    rejects ([fetchDomains] catches every error), so the [.catch] handler
    attached to it never runs. *)
Definition debounceCallback (v : string) (now : Z) (h : Home) : Home :=
  let h := match fetchAbortRef h with
           | Some c => abort c h
           | None => h
           end in
  let controller := fresh h in
  let h := setFresh (S controller) h in
  let h := setFetchAbortRef (Some controller) h in
  runSearchStart v controller now h.

(** Mounting the page whose URL carries the parameter [paramQ]: the
    first effect schedules [setQ(paramQ)] when the parameter is present
    and not empty, the debounce effect runs once for the initial empty
    query, and again after the re-render. *)
Definition mount (paramQ : option string) : Home :=
  let h := debounceEffect "" (setUrlQ paramQ initial) in
  match paramQ with
  | Some v => change v h
  | None => h
  end.

(** ** Events *)

Inductive Event : Type :=
| Change (v : string)
| ClearSignal
| TimerFires (id : nat) (now : Z)
| Settle (controller : nat) (e : fetchEnd) (now : Z)
| EffectRuns.

Definition findById (id : nat) (l : list (nat * string)) : option string :=
  snd <$> List.find (fun t => Nat.eqb (fst t) id) l.

Definition removeById (id : nat) (l : list (nat * string))
  : list (nat * string) :=
  List.filter (fun t => negb (Nat.eqb (fst t) id)) l.

(** One turn of the event loop; [None] when the event cannot happen in
    [h] (no such timer pending, no such request in flight, no effect
    due). [EffectRuns] is the task in which React re-renders after the
    clear signal and runs the debounce effect; the continuation of a
    request can run before it. *)
Definition step (h : Home) (ev : Event) : option Home :=
  match ev with
  | Change v => Some (change v h)
  | ClearSignal => Some (onClear h)
  | TimerFires id now =>
      v ← findById id (timers h);
      Some (debounceCallback v now (setTimers (removeById id (timers h)) h))
  | Settle controller e now =>
      original ← findById controller (inflight h);
      let r := fetchDomains controller e h in
      let h := setInflight (removeById controller (inflight h)) h in
      Some (runSearchResume original controller r now h)
  | EffectRuns => if effectDue h then Some (runEffect h) else None
  end.

(** At most one timer is pending, and [debounceRef] holds its identity. *)
Definition oneTimer (h : Home) : Prop :=
  timers h = []
  \/ exists id v, timers h = [(id, v)] /\ debounceRef h = Some id.

(** Every request in flight has been aborted, except possibly the one
    whose controller [fetchAbortRef] holds. *)
Definition oneLiveRequest (h : Home) : Prop :=
  forall c v, In (c, v) (inflight h) ->
    c ∈ aborted h \/ fetchAbortRef h = Some c.

(** The effect is due only while [q] is empty, that is, after the clear
    signal: otherwise it has run for the current [q]. *)
Definition inSync (h : Home) : Prop :=
  q h <> ""%string -> renderedQ h = q h.

Fixpoint run (h : Home) (evs : list Event) : option Home :=
  match evs with
  | [] => Some h
  | ev :: rest => h' ← step h ev; run h' rest
  end.

End Page.

(* ===================================================================== *)
(** * Reading the log of outgoing calls, and sample collaborators         *)
(* ===================================================================== *)

Module Log.

(** The candidate lists carried by the bulk-availability requests of a log. *)
Fixpoint bulkRequests (l : list Call) : list (list string) :=
  match l with
  | [] => []
  | CallGetBulkAvailability _ domains :: rest => domains :: bulkRequests rest
  | _ :: rest => bulkRequests rest
  end.

(** The prompts sent to the text generation gateway. *)
Fixpoint generateCalls (l : list Call) : list string :=
  match l with
  | [] => []
  | CallGenerateText prompt :: rest => prompt :: generateCalls rest
  | _ :: rest => generateCalls rest
  end.

(** The label [getSearchLabelFromQuery] settles on when it has to ask
    the text generation. *)
Definition synthesized (P : Providers) (originalQ normalizedQ fallbackLabel : string)
  : string :=
  match generateText P (Route.promptOf originalQ) with
  | Resolved title =>
      let label := Route.domainLabelFromTitle (Route.finalTitleOf title) in
      if JS.truthy label then label
      else Route.fallbackLabelOf normalizedQ fallbackLabel
  | Rejected _ => Route.fallbackLabelOf normalizedQ fallbackLabel
  end.

(** No entry for [k] that is still fresh at time [now]. *)
Definition labelMiss (w : World) (k : string) (now : Z) : Prop :=
  match labelCache w !! k with
  | Some (_, ts) => (now - ts <? Route.LABEL_CACHE_TTL) = false
  | None => True
  end.



End Log.

Module Sample.
Import Json.

(** A world in which nothing has been cached or called yet. *)
Definition emptyWorld : World :=
  {| labelCache := ∅; tldsCache := None; ticks := O; calls := [] |}.

(** Collaborators that all answer: the generated title is given, the
    registrar supports [tlds] and reports every candidate back. *)
Definition answering (title : string) (tlds : list string) : Providers :=
  {| clock := fun n => 1000 * Z.of_nat n;
     generateText := fun _ => Resolved title;
     sdkGetSupportedTlds := fun _ => Resolved (TldArray tlds);
     sdkGetBulkAvailability := fun _ domains => Resolved (Arr (map Str domains)) |}.

(** The same, with a text generation gateway that rejects every call. *)
Definition generationDown (message : string) (tlds : list string) : Providers :=
  {| clock := fun n => 1000 * Z.of_nat n;
     generateText := fun _ => Rejected message;
     sdkGetSupportedTlds := fun _ => Resolved (TldArray tlds);
     sdkGetBulkAvailability := fun _ domains => Resolved (Arr (map Str domains)) |}.

(** The same, with a registrar whose bulk endpoint rejects every call. *)
Definition bulkDown (message : string) (tlds : list string) : Providers :=
  {| clock := fun n => 1000 * Z.of_nat n;
     generateText := fun _ => Resolved "brand";
     sdkGetSupportedTlds := fun _ => Resolved (TldArray tlds);
     sdkGetBulkAvailability := fun _ _ => Rejected message |}.

(** The character TAB, and a query with a TAB and a dot in it. *)
Definition tab : ascii := "009"%char.
Definition tabbedDomain : string := "a" +:+ String tab "b.com".

(** Sixty-two letters, a hyphen and one more letter: 64 characters. *)
Definition sixtyTwo : string :=
  "aaaaaaaaaaaaaaaaaaaaaaaaaaaaaaaaaaaaaaaaaaaaaaaaaaaaaaaaaaaaaa".
Definition longTitle : string := sixtyTwo +:+ "-b".

(** A search for "dogs" that completes and is cached; then a search for
    "cats" whose request is still in flight (controller 3) when the user
    goes back to "dogs", which supersedes it and is served from the cache. *)
Definition dogsResponse : Json.value :=
  Obj [("domains", Arr [Str "dogs.com"; Str "dogs.io"])].

Definition backToCached : list Page.Event :=
  [ Page.Change "dogs"; Page.TimerFires 0 1000;
    Page.Settle 1 (Page.Responded dogsResponse) 1400;
    Page.Change "cats"; Page.TimerFires 2 5000;
    Page.Change "dogs"; Page.TimerFires 4 6000 ].

(** The scenario of the specification: "cats" is in flight (controller 1)
    when "cats and dogs" supersedes it (controller 3). *)
Definition catsThenCatsAndDogs : list Page.Event :=
  [ Page.Change "cats"; Page.TimerFires 0 1000;
    Page.Change "cats and dogs"; Page.TimerFires 2 1500 ].

(** "cats" is in flight (controller 1) when the input is emptied. *)
Definition typedThenEmptied : list Page.Event :=
  [ Page.Change "cats"; Page.TimerFires 0 1000; Page.Change "" ].

(** The same, emptied by the clear signal; the effect of the re-render
    is still to run. *)
Definition typedThenCleared : list Page.Event :=
  [ Page.Change "cats"; Page.TimerFires 0 1000; Page.ClearSignal ].

End Sample.

(** What the specification calls the whitespace-stripped query: every
    white-space character removed. It is stated here to be compared with
    what [Route.fallbackLabelOf] computes. *)
Module Spec.

Definition whitespaceStripped (s : string) : string :=
  JS.str (List.filter (fun c => negb (JS.isWhiteSpace c)) (JS.chars s)).

(** A search label, the empty one included: at most 63 characters, all of
    them lowercase letters, digits or hyphens (so no dot), and no hyphen
    at either end. *)
Definition validLabel (l : list ascii) : Prop :=
  forallb Re.isLabelChar l = true
  /\ JS.headAvoids Re.isHyphen l
  /\ JS.headAvoids Re.isHyphen (rev l)
  /\ (List.length l <= 63)%nat.

End Spec.

(* ===================================================================== *)
(** * [app/page.tsx]: what is rendered, and the marketplace link          *)
(* ===================================================================== *)

Module Render.
Import JS Json Page.




(** [getStatus]: [typeof null] is "object", so a [null] entry reaches
    [item.available], which throws. *)
Definition getStatus (item : value) : outcome value :=
  if typeofObject item then
    match item with
    | Null =>
        Rejected "Cannot read properties of null (reading 'available')"
    | _ =>
        match get item "available" with
        | Bool true => Resolved (Str "Available")
        | Bool false => Resolved (Str "Registered")
        | _ =>
            if truthy (get item "status") then Resolved (get item "status")
            else Resolved (Str "")
        end
    end
  else Resolved (Str "").

(** [item?.k] *)
Definition getOpt (item : value) (k : string) : value :=
  if nullish item then Undefined else get item k.

(** [a ?? b] *)
Definition coalesce (a b : value) : value := if nullish a then b else a.

Section WithStringify.
(** [JSON.stringify], a built-in of the platform. *)
Context (stringify : value -> value).

Definition getDomainString (item : value) : value :=
  match item with
  | Str _ => item
  | _ =>
      coalesce (getOpt item "domain")
        (coalesce (getOpt item "name")
           (coalesce (getOpt item "domainName") (stringify item)))
  end.

End WithStringify.

(** ** [vercelSearchUrl] *)

(** [s.split(WS_SPLIT)] with [WS_SPLIT = /\s+/]: the pieces between the
    runs of white space; a run at either end leaves an empty piece there,
    and the empty string gives one empty piece. [inRun] tells that the
    character before was white space. *)
Fixpoint splitRuns (inRun : bool) (l : list ascii) : list (list ascii) :=
  match l with
  | [] => [[]]
  | c :: l' =>
      if isWhiteSpace c then
        if inRun then splitRuns true l' else [] :: splitRuns true l'
      else
        match splitRuns false l' with
        | piece :: rest => (c :: piece) :: rest
        | [] => [[c]]
        end
  end.

Definition split_WS_SPLIT (s : string) : list string :=
  map str (splitRuns false (chars s)).

(** The characters [encodeURIComponent] leaves alone: letters, digits and
    [- _ . ! ~ * ' ( )]. *)
Definition isUnreserved (c : ascii) : bool :=
  let n := code c in
  ((65 <=? n) && (n <=? 90) || (97 <=? n) && (n <=? 122)
   || (48 <=? n) && (n <=? 57)
   || (n =? 45) || (n =? 95) || (n =? 46) || (n =? 33) || (n =? 126)
   || (n =? 42) || (n =? 39) || (n =? 40) || (n =? 41))%N.

Definition hexDigit (n : N) : ascii :=
  if (n <? 10)%N then ascii_of_N (48 + n) else ascii_of_N (55 + n).

(** [%XX] for one byte. *)
Definition percentByte (n : N) : list ascii :=
  ["%"%char; hexDigit (n / 16); hexDigit (n mod 16)].

(** One code unit below 256 through [encodeURIComponent]: itself when
    unreserved, else the bytes of its UTF-8 encoding (one byte below 128,
    two bytes from 128 on), percent-encoded. *)
Definition encodeChar (c : ascii) : list ascii :=
  let n := code c in
  if isUnreserved c then [c]
  else if (n <? 128)%N then percentByte n
  else percentByte (192 + n / 64) ++ percentByte (128 + n mod 64).

Definition encodeURIComponent (s : string) : string :=
  str (flat_map encodeChar (chars s)).

(** [pieces.join(sep)] *)
Fixpoint join (sep : string) (pieces : list string) : string :=
  match pieces with
  | [] => ""
  | [p] => p
  | p :: rest => p +:+ sep +:+ join sep rest
  end.

Definition normalizedOf (q : string) : string :=
  join "+" (map encodeURIComponent (split_WS_SPLIT (trim q))).

Definition vercelSearchUrl (q : string) : string :=
  "https://vercel.com/domains/search?q=" +:+ normalizedOf q.

(** The characters that can occur in the query part of the link. *)
Definition isLinkChar (c : ascii) : bool :=
  isUnreserved c || Ascii.eqb c "%"%char || Ascii.eqb c "+"%char.

End Render.

(** More readings of the call log, and of the client state. *)
Module Reading.

(** The team identifiers of the supported-TLD requests of a log. *)
Fixpoint tldRequests (l : list Call) : list (option string) :=
  match l with
  | [] => []
  | CallGetSupportedTlds teamId :: rest => teamId :: tldRequests rest
  | _ :: rest => tldRequests rest
  end.

(** No TLD snapshot that is still fresh at time [now]. *)
Definition tldsMiss (w : World) (now : Z) : Prop :=
  match tldsCache w with
  | Some (_, ts) => (now - ts <? Route.TLDS_CACHE_TTL) = false
  | None => True
  end.

(** The TLD snapshot, if there is one, holds no empty TLD. *)
Definition tldsClean (w : World) : Prop :=
  match tldsCache w with
  | Some (tlds, _) => Forall (fun t => t <> ""%string) tlds
  | None => True
  end.

(** What [fetchDomains] makes of the end of a request that was not
    aborted. *)
Definition decoded (e : Page.fetchEnd) : list Json.value :=
  match e with
  | Page.Responded data => Page.normalizeDomainPayload (Page.payloadOf data)
  | Page.Failed => []
  end.

(** Collaborators whose supported-TLD endpoint rejects every call. *)
Definition tldsDown (message : string) : Providers :=
  {| clock := fun n => 1000 * Z.of_nat n;
     generateText := fun _ => Resolved "brand";
     sdkGetSupportedTlds := fun _ => Rejected message;
     sdkGetBulkAvailability := fun _ domains =>
       Resolved (Json.Arr (map Json.Str domains)) |}.



(** Sample client states: the timer of "dogs" pending with "dogs" in the
    cache; the timer of "cats" pending while "dog" is in flight; and
    "cats" in flight under the current controller. *)
Definition dogsCached : Page.Home :=
  {| Page.q := "dogs"; Page.results := []; Page.loading := true;
     Page.searchCacheRef :=
       {[ "dogs"%string := ([Json.Str "dogs.com"], 1000) ]};
     Page.debounceRef := Some 4%nat; Page.fetchAbortRef := None;
     Page.urlQ := None;
     Page.timers := [(4%nat, "dogs"%string)]; Page.aborted := ∅;
     Page.inflight := []; Page.fresh := 5; Page.sent := ["dogs"%string];
     Page.renderedQ := "dogs" |}.


Definition catsInFlight : Page.Home :=
  {| Page.q := "cats"; Page.results := []; Page.loading := true;
     Page.searchCacheRef := ∅;
     Page.debounceRef := Some 0%nat; Page.fetchAbortRef := Some 1%nat;
     Page.urlQ := None;
     Page.timers := []; Page.aborted := ∅;
     Page.inflight := [(1%nat, "cats"%string)];
     Page.fresh := 2; Page.sent := ["cats"%string];
     Page.renderedQ := "cats" |}.

(** The queries of the pending timers and of the requests in flight. *)
Definition pendingQueries (h : Page.Home) : list string :=
  map snd (Page.timers h) ++ map snd (Page.inflight h).

(** The queries of the timers, of the requests in flight and of the
    requests sent so far. *)
Definition allQueries (h : Page.Home) : list string :=
  map snd (Page.timers h) ++ map snd (Page.inflight h) ++ Page.sent h.

(** A state that the event loop reaches from a page mounted with the URL
    parameter [paramQ]. *)
Definition reachable (paramQ : option string) (h : Page.Home) : Prop :=
  exists evs, Page.run (Page.mount paramQ) evs = Some h.



(** The last character, when there is one, is no white space. *)
Fixpoint endsClean (l : list ascii) : bool :=
  match l with
  | [] => true
  | [c] => negb (JS.isWhiteSpace c)
  | _ :: l' => endsClean l'
  end.

(** A word: not empty, and free of white space. *)
Definition isWord (l : list ascii) : Prop :=
  l <> [] /\ forallb (fun c => negb (JS.isWhiteSpace c)) l = true.

(** The separator of the words in the marketplace link. *)
Definition isPlus (c : ascii) : bool := Ascii.eqb c "+"%char.

(** No two separators in a row. *)
Fixpoint noDoublePlus (l : list ascii) : bool :=
  match l with
  | c :: (c' :: _) as rest =>
      negb (isPlus c && isPlus c') && noDoublePlus rest
  | _ => true
  end.

Definition countPlus (l : list ascii) : nat :=
  List.length (List.filter isPlus l).

(** Not empty, no separator at either end, and no two in a row. *)
Definition wellSeparated (l : list ascii) : Prop :=
  l <> []
  /\ JS.headAvoids isPlus l
  /\ JS.headAvoids isPlus (rev l)
  /\ noDoublePlus l = true.


End Reading.

(* ===================================================================== *)
(** * Proof tactics                                                       *)
(* ===================================================================== *)

(** Decide a statement about one character by its 256 cases. *)
Ltac by_cases_on_char c :=
  destruct c as [[] [] [] [] [] [] [] []]; vm_compute; intuition congruence.

(** Unfold the operations of the [Async] monad. *)
Ltac run_async :=
  unfold mbind, mret, async_bind, async_ret, Async.bind, Async.ret,
    Async.tryCatch, Async.throw, Async.await, Async.emit, Async.dateNow,
    Async.getLabelCache, Async.setLabelCache, Async.getTldsCache,
    Async.setTldsCache in *.

(* ===================================================================== *)
(** * Properties of [normalizeDomainPayload]                              *)
(* ===================================================================== *)

Module PayloadFacts.
Import JS Json Page.

Lemma firstArray_three (a b c : value) :
  firstArray [a; b; c] =
    match a, b, c with
    | Arr l, _, _ => Some l
    | _, Arr l, _ => Some l
    | _, _, Arr l => Some l
    | _, _, _ => None
    end.
Proof. destruct a, b, c; reflexivity. Qed.

Lemma candidatesOf_spec (fields : list (string * value)) :
  candidatesOf (Obj fields) =
    [ lookupField "results" fields;
      lookupField "domains" fields;
      nestedResults (Obj fields) ].
Proof.
  unfold candidatesOf, nestedResults; cbn [get].
  destruct (lookupField "domains" fields) as [| |b|n|s|l|inner];
    cbn; try reflexivity.
  - destruct b; reflexivity.
  - destruct (negb (n =? 0)); reflexivity.
  - destruct (JS.truthy s); reflexivity.
Qed.

(** C10. [normalizeDomainPayload] is total (it is a function of the
    embedding, defined on every JSON value, with no failure case): an
    array is returned as it is; [null], [undefined], booleans, numbers
    and strings give the empty list; for an object the first array among
    [payload.results], [payload.domains] and [payload.domains.results]
    is returned; and an object with no such array, such as the error
    body [{ error }] of the route, is wrapped into a one-element list. *)
Theorem normalizeDomainPayload_total_cases :
  (forall items, normalizeDomainPayload (Arr items) = items)
  /\ normalizeDomainPayload Null = []
  /\ normalizeDomainPayload Undefined = []
  /\ (forall b, normalizeDomainPayload (Bool b) = [])
  /\ (forall n, normalizeDomainPayload (Num n) = [])
  /\ (forall s, normalizeDomainPayload (Str s) = [])
  /\ (forall fields,
        normalizeDomainPayload (Obj fields) =
          match lookupField "results" fields,
                lookupField "domains" fields,
                nestedResults (Obj fields) with
          | Arr l, _, _ => l
          | _, Arr l, _ => l
          | _, _, Arr l => l
          | _, _, _ => [Obj fields]
          end)
  /\ (forall message,
        normalizeDomainPayload (Route.errorBody message)
        = [Route.errorBody message]).
Proof.
  repeat split; try reflexivity.
  - intros b. unfold normalizeDomainPayload; cbn. destruct b; reflexivity.
  - intros n. unfold normalizeDomainPayload; cbn.
    destruct (n =? 0); reflexivity.
  - intros s. unfold normalizeDomainPayload; cbn.
    destruct (JS.truthy s); reflexivity.
  - intros fields. unfold normalizeDomainPayload.
    cbn [truthy typeofObject negb orb].
    rewrite candidatesOf_spec, firstArray_three.
    destruct (lookupField "results" fields),
             (lookupField "domains" fields),
             (nestedResults (Obj fields)); reflexivity.
Qed.

End PayloadFacts.

(* ===================================================================== *)
(** * Facts about the string primitives                                   *)
(* ===================================================================== *)

Module StringFacts.
Import JS Re.

Lemma chars_str (l : list ascii) : chars (str l) = l.
Proof. apply list_ascii_of_string_of_list_ascii. Qed.

Lemma str_chars (s : string) : str (chars s) = s.
Proof. apply string_of_list_ascii_of_string. Qed.

Lemma truthy_false_iff (s : string) : JS.truthy s = false <-> s = ""%string.
Proof. destruct s; cbn; split; congruence. Qed.

Lemma length_str (l : list ascii) : JS.length (str l) = List.length l.
Proof.
  unfold JS.length, str. induction l as [|c l IH]; cbn; [reflexivity|].
  now rewrite IH.
Qed.

Lemma toLowerCase_empty : toLowerCase "" = ""%string.
Proof. reflexivity. Qed.

Lemma includesChar_In (s : string) (c : ascii) :
  includesChar s c = true <-> In c (chars s).
Proof.
  unfold includesChar. rewrite existsb_exists. split.
  - intros (x & Hin & Heq). apply Ascii.eqb_eq in Heq. now subst.
  - intros Hin. exists c. split; [assumption | apply Ascii.eqb_refl].
Qed.

Lemma includesChar_false (s : string) (c : ascii) :
  includesChar s c = false <-> ~ In c (chars s).
Proof.
  rewrite <- includesChar_In. destruct (includesChar s c); split; congruence.
Qed.

Lemma dropWhile_all {A} (p : A -> bool) (l : list A) :
  forallb p l = true -> dropWhile p l = [].
Proof.
  induction l as [|x l IH]; cbn; [reflexivity|].
  intros [Hx Hl]%andb_true_iff. rewrite Hx. auto.
Qed.

(** A string of white space only trims to the empty string. *)
Lemma trim_whitespace_only (s : string) :
  forallb isWhiteSpace (chars s) = true -> trim s = ""%string.
Proof.
  intros H. unfold trim, trimChars, dropWhileEnd.
  now rewrite (dropWhile_all _ _ H).
Qed.

Lemma dropWhile_suffix {A} (p : A -> bool) (l : list A) :
  exists pre, l = pre ++ dropWhile p l.
Proof.
  induction l as [|x l [pre IH]]; cbn.
  - now exists [].
  - destruct (p x).
    + exists (x :: pre). cbn. now f_equal.
    + now exists [].
Qed.

Lemma dropWhile_head {A} (p : A -> bool) (l : list A) :
  match dropWhile p l with
  | x :: _ => p x = false
  | [] => True
  end.
Proof.
  induction l as [|x l IH]; cbn; [exact I|].
  destruct (p x) eqn:Hx; [exact IH | exact Hx].
Qed.

Lemma dropWhileEnd_prefix {A} (p : A -> bool) (l : list A) :
  exists suf, l = dropWhileEnd p l ++ suf.
Proof.
  unfold dropWhileEnd.
  destruct (dropWhile_suffix p (rev l)) as [pre Hpre].
  exists (rev pre).
  rewrite <- rev_app_distr, <- Hpre. now rewrite rev_involutive.
Qed.

Lemma forallb_dropWhile {A} (f p : A -> bool) (l : list A) :
  forallb f l = true -> forallb f (dropWhile p l) = true.
Proof.
  destruct (dropWhile_suffix p l) as [pre Hpre]. intros H.
  rewrite Hpre, forallb_app in H. now apply andb_true_iff in H as [_ H].
Qed.

Lemma forallb_dropWhileEnd {A} (f p : A -> bool) (l : list A) :
  forallb f l = true -> forallb f (dropWhileEnd p l) = true.
Proof.
  destruct (dropWhileEnd_prefix p l) as [suf Hsuf]. intros H.
  rewrite Hsuf, forallb_app in H. now apply andb_true_iff in H as [H _].
Qed.

Lemma forallb_firstn {A} (f : A -> bool) (n : nat) (l : list A) :
  forallb f l = true -> forallb f (firstn n l) = true.
Proof.
  intros H. rewrite <- (firstn_skipn n l), forallb_app in H.
  now apply andb_true_iff in H as [H _].
Qed.

Lemma headAvoids_prefix {A} (p : A -> bool) (l k : list A) :
  headAvoids p (l ++ k) -> headAvoids p l.
Proof. destruct l; cbn; auto. Qed.

Lemma headAvoids_firstn {A} (p : A -> bool) (n : nat) (l : list A) :
  headAvoids p l -> headAvoids p (firstn n l).
Proof. destruct n, l; cbn; auto. Qed.

Lemma dropWhile_id {A} (p : A -> bool) (l : list A) :
  headAvoids p l -> dropWhile p l = l.
Proof. destruct l as [|x l]; cbn; [reflexivity|]. now intros ->. Qed.

Lemma dropWhileEnd_id {A} (p : A -> bool) (l : list A) :
  headAvoids p (rev l) -> dropWhileEnd p l = l.
Proof.
  intros H. unfold dropWhileEnd. rewrite dropWhile_id by assumption.
  apply rev_involutive.
Qed.

Lemma headAvoids_of_forallb {A} (f p : A -> bool) (l : list A) :
  (forall x, f x = true -> p x = false) ->
  forallb f l = true -> headAvoids p l.
Proof.
  intros Hfp. destruct l as [|x l]; cbn; [auto|].
  intros [Hx _]%andb_true_iff. auto.
Qed.

Lemma forallb_rev {A} (f : A -> bool) (l : list A) :
  forallb f (rev l) = forallb f l.
Proof.
  induction l as [|x l IH]; cbn; [reflexivity|].
  rewrite forallb_app, IH. cbn. rewrite andb_true_r. apply andb_comm.
Qed.

Lemma chars_length (s : string) : List.length (chars s) = JS.length s.
Proof. now rewrite <- (str_chars s) at 2; rewrite length_str. Qed.

Lemma dropWhile_length {A} (p : A -> bool) (l : list A) :
  (List.length (dropWhile p l) <= List.length l)%nat.
Proof.
  destruct (dropWhile_suffix p l) as [pre Hpre].
  rewrite Hpre at 2. rewrite length_app. lia.
Qed.

Lemma dropWhileEnd_length {A} (p : A -> bool) (l : list A) :
  (List.length (dropWhileEnd p l) <= List.length l)%nat.
Proof.
  destruct (dropWhileEnd_prefix p l) as [suf Hsuf].
  rewrite Hsuf at 2. rewrite length_app. lia.
Qed.

Lemma dropWhileEnd_last {A} (p : A -> bool) (l : list A) :
  headAvoids p (rev (dropWhileEnd p l)).
Proof.
  unfold dropWhileEnd. rewrite rev_involutive. apply dropWhile_head.
Qed.

Lemma dropFirstQuote_length (l : list ascii) :
  (List.length (dropFirstQuote l) <= List.length l)%nat.
Proof. destruct l as [|c l]; cbn; [lia|]. destruct (isQuote c); cbn; lia. Qed.

Lemma dropLastQuote_length (l : list ascii) :
  (List.length (dropLastQuote l) <= List.length l)%nat.
Proof.
  unfold dropLastQuote. rewrite length_rev.
  etransitivity; [apply dropFirstQuote_length|]. now rewrite length_rev.
Qed.

Lemma dropFirstWhitespaceRun_length (l : list ascii) :
  (List.length (dropFirstWhitespaceRun l) <= List.length l)%nat.
Proof.
  induction l as [|c l IH]; cbn; [lia|].
  destruct (isWhiteSpace c); cbn; [|lia].
  pose proof (dropWhile_length isWhiteSpace l). lia.
Qed.

Lemma toLowerCase_length (s : string) :
  JS.length (toLowerCase s) = JS.length s.
Proof.
  unfold toLowerCase. now rewrite length_str, length_map, chars_length.
Qed.

Lemma trim_length (s : string) : (JS.length (trim s) <= JS.length s)%nat.
Proof.
  unfold trim, trimChars. rewrite length_str, <- chars_length.
  etransitivity; [apply dropWhileEnd_length | apply dropWhile_length].
Qed.

Lemma sliceTo_length (n : nat) (s : string) :
  (JS.length (sliceTo n s) <= n)%nat.
Proof. unfold sliceTo. rewrite length_str. apply firstn_le_length. Qed.

Lemma append_length (s1 s2 : string) :
  JS.length (s1 +:+ s2) = (JS.length s1 + JS.length s2)%nat.
Proof.
  unfold JS.length. induction s1 as [|c s1 IH]; [reflexivity|].
  change (S (String.length (s1 +:+ s2))
          = S (String.length s1 + String.length s2)).
  now rewrite IH.
Qed.

(** ** Character classes *)

Lemma label_not_whitespace (c : ascii) :
  isLabelChar c = true -> isWhiteSpace c = false.
Proof. by_cases_on_char c. Qed.

Lemma label_not_quote (c : ascii) : isLabelChar c = true -> isQuote c = false.
Proof. by_cases_on_char c. Qed.

Lemma label_not_dot (c : ascii) : isLabelChar c = true -> isDot c = false.
Proof. by_cases_on_char c. Qed.

Lemma label_lower (c : ascii) : isLabelChar c = true -> lowerChar c = c.
Proof. by_cases_on_char c. Qed.


End StringFacts.

(* ===================================================================== *)
(** * The TLD candidate selector                                          *)
(* ===================================================================== *)

Module TldFacts.
Import JS.

Lemma arrayIncludes_In (l : list string) (x : string) :
  arrayIncludes l x = true <-> In x l.
Proof.
  unfold arrayIncludes. rewrite existsb_exists. split.
  - intros (y & Hin & Heq). apply String.eqb_eq in Heq. now subst.
  - intros Hin. exists x. split; [assumption | apply String.eqb_refl].
Qed.

Lemma arrayIncludes_false (l : list string) (x : string) :
  arrayIncludes l x = false <-> ~ In x l.
Proof.
  rewrite <- arrayIncludes_In. destruct (arrayIncludes l x); split; congruence.
Qed.

Lemma COMMON_NoDup : List.NoDup Route.COMMON.
Proof.
  apply <- (NoDup_count_occ' string_dec). intros x Hin.
  repeat (destruct Hin as [<-|Hin]; [reflexivity|]). destruct Hin.
Qed.

(** The loop over a duplicate-free [common] that is disjoint from the
    accumulator appends, in order, the entries that occur in [tlds]: the
    test [!preferred.includes(c)] never fails. *)
Lemma pickPreferred_filter (tlds : list string) :
  forall common preferred,
    List.NoDup common ->
    (forall c, In c common -> ~ In c preferred) ->
    Route.pickPreferred tlds common preferred
      = preferred ++ List.filter (arrayIncludes tlds) common.
Proof.
  unfold Route.pickPreferred.
  induction common as [|c common IH]; intros preferred Hnd Hdisj; cbn.
  - now rewrite app_nil_r.
  - inversion Hnd as [|? ? Hnotin Hnd']; subst.
    assert (Hc : arrayIncludes preferred c = false).
    { apply arrayIncludes_false, Hdisj. now left. }
    rewrite Hc. cbn [negb]. rewrite andb_true_r.
    destruct (arrayIncludes tlds c).
    + rewrite IH; [now rewrite <- app_assoc | assumption |].
      intros c' Hin Hin'. apply in_app_or in Hin' as [Hin'|[->|[]]].
      * apply (Hdisj c'); [now right | assumption].
      * contradiction.
    + apply IH; [assumption|]. intros c' Hin. apply Hdisj. now right.
Qed.

Lemma preferred_is_filter (tlds : list string) :
  Route.pickPreferred tlds Route.COMMON []
    = List.filter (arrayIncludes tlds) Route.COMMON.
Proof.
  rewrite pickPreferred_filter; [reflexivity | apply COMMON_NoDup |].
  intros c _ [].
Qed.

Lemma rest_is_filter (tlds : list string) :
  List.filter
    (fun t => negb (arrayIncludes (List.filter (arrayIncludes tlds) Route.COMMON) t))
    tlds
  = List.filter (fun t => negb (arrayIncludes Route.COMMON t)) tlds.
Proof.
  apply filter_ext_in. intros t Hin. f_equal.
  destruct (arrayIncludes Route.COMMON t) eqn:Hc.
  - apply arrayIncludes_In, filter_In. split.
    + now apply arrayIncludes_In.
    + now apply arrayIncludes_In.
  - apply arrayIncludes_false. intros Hf. apply filter_In in Hf as [Hf _].
    apply arrayIncludes_In in Hf. congruence.
Qed.

Lemma arraySlice0_nonneg {A} (l : list A) (limit : Z) :
  0 <= limit -> arraySlice0 l limit = firstn (Z.to_nat limit) l.
Proof.
  intros Hl. unfold arraySlice0.
  destruct (limit <? 0) eqn:Hneg; [lia|].
  destruct (Z.le_ge_cases limit (Z.of_nat (List.length l))) as [Hle|Hge].
  - now rewrite Z.min_l.
  - rewrite Z.min_r by assumption. rewrite Nat2Z.id.
    rewrite !firstn_all2; [reflexivity | lia | lia].
Qed.

(** C6, as the code has it. For every TLD list and every non-negative
    limit, [pickCandidateTlds] (the same function in both revisions)
    returns the first [limit] entries of: the priority TLDs that occur in
    the input, in priority order and once each, followed by the input TLDs
    that are not priority TLDs, in their original order and with their
    multiplicities. The result has at most [limit] entries, and it is
    duplicate-free whenever the input list is. *)
Theorem pickCandidateTlds_spec (tlds : list string) (limit : Z) :
  0 <= limit ->
  Route.pickCandidateTlds tlds limit
    = firstn (Z.to_nat limit)
        (List.filter (arrayIncludes tlds) Route.COMMON
         ++ List.filter (fun t => negb (arrayIncludes Route.COMMON t)) tlds)
  /\ Z.of_nat (List.length (Route.pickCandidateTlds tlds limit)) <= limit
  /\ (NoDup tlds -> NoDup (Route.pickCandidateTlds tlds limit))
  /\ RoutePlain.pickCandidateTlds tlds limit
       = Route.pickCandidateTlds tlds limit.
Proof.
  intros Hlimit.
  assert (E : Route.pickCandidateTlds tlds limit
    = firstn (Z.to_nat limit)
        (List.filter (arrayIncludes tlds) Route.COMMON
         ++ List.filter (fun t => negb (arrayIncludes Route.COMMON t)) tlds)).
  { unfold Route.pickCandidateTlds. cbn zeta.
    rewrite preferred_is_filter, rest_is_filter.
    now apply arraySlice0_nonneg. }
  split; [exact E|]. split; [|split; [|reflexivity]].
  - rewrite E. pose proof (firstn_le_length (Z.to_nat limit)
      (List.filter (arrayIncludes tlds) Route.COMMON
       ++ List.filter (fun t => negb (arrayIncludes Route.COMMON t)) tlds)).
    lia.
  - intros Hnd. rewrite E.
    eapply sublist_NoDup; [|apply sublist_take].
    apply NoDup_app. split; [|split].
    + apply NoDup_ListNoDup, List.NoDup_filter, COMMON_NoDup.
    + intros x Hx Hx'. apply list_elem_of_In in Hx, Hx'.
      apply filter_In in Hx as [Hx _]. apply filter_In in Hx' as [_ Hx'].
      apply arrayIncludes_In in Hx. rewrite Hx in Hx'. discriminate.
    + apply NoDup_ListNoDup, List.NoDup_filter. now apply NoDup_ListNoDup.
Qed.

(** C6 at a list with a repeated entry and the limit 3. *)
Lemma pickCandidateTlds_spec_witness :
  0 <= 3
  /\ Route.pickCandidateTlds ["zz"; "io"; "zz"; "com"; "qq"] 3
     = ["com"; "io"; "zz"].
Proof.
  split; [lia|].
  rewrite (proj1 (pickCandidateTlds_spec ["zz"; "io"; "zz"; "com"; "qq"] 3
                    ltac:(lia))).
  reflexivity.
Defined.

(** C6, as stated, fails on an input with a repeated TLD outside the
    priority list: the repetition is kept. It also fails for a negative
    limit, with which [slice] drops entries from the end instead of
    keeping at most [limit] of them. *)
Lemma pickCandidateTlds_keeps_duplicates :
  Route.pickCandidateTlds ["zz"; "zz"] 25 = ["zz"; "zz"]
  /\ ~ NoDup (Route.pickCandidateTlds ["zz"; "zz"] 25)
  /\ Route.pickCandidateTlds ["aaa"; "bbb"; "ccc"] (-1) = ["aaa"; "bbb"].
Proof.
  split; [reflexivity|]. split; [|reflexivity].
  intros Hnd. change (NoDup ["zz"; "zz"]) in Hnd.
  inversion Hnd as [|? ? Hnotin _]; subst. apply Hnotin. now left.
Qed.

End TldFacts.

(* ===================================================================== *)
(** * The request handler                                                 *)
(* ===================================================================== *)

Module RouteFacts.
Import JS Re Json Async Log.
Import StringFacts.

Lemma readProp_run (v : value) (k : string) (w : World) :
  Route.readProp v k w =
    if nullish v
    then (Rejected ("Cannot read properties of null (reading '" +:+ k +:+ "')"), w)
    else (Resolved (get v k), w).
Proof. destruct v; reflexivity. Qed.

Lemma bulkAvailability_run (P : Providers) (t : option string)
    (ds : list string) (w : World) :
  Route.bulkAvailability P t ds w =
    (sdkGetBulkAvailability P t ds,
     {| labelCache := labelCache w; tldsCache := tldsCache w;
        ticks := ticks w;
        calls := calls w ++ [CallGetBulkAvailability t ds] |}).
Proof. reflexivity. Qed.

(** The label step of the handler never rejects; the only call it can
    make is one text generation call, and it leaves the TLD cache alone. *)
Lemma getSearchLabelFromQuery_run
    (P : Providers) (oq nq fb : string) (w : World) :
  exists label w' gen,
    Route.getSearchLabelFromQuery P oq nq fb w = (Resolved label, w')
    /\ calls w' = calls w ++ gen
    /\ (gen = [] \/ gen = [CallGenerateText (Route.promptOf oq)])
    /\ tldsCache w' = tldsCache w.
Proof.
  unfold Route.getSearchLabelFromQuery.
  destruct (test_WHITESPACE_RE oq); cbn [negb].
  - assert (Hgen : forall now w0,
      exists label w',
        Route.generateLabel P oq nq fb now w0 = (Resolved label, w')
        /\ calls w' = calls w0 ++ [CallGenerateText (Route.promptOf oq)]
        /\ tldsCache w' = tldsCache w0).
    { intros now w0. unfold Route.generateLabel. run_async. cbn.
      destruct (generateText P (Route.promptOf oq)) as [title|msg]; cbn.
      - destruct (JS.truthy (Route.domainLabelFromTitle (Route.finalTitleOf title)));
          cbn; eauto.
      - eauto. }
    run_async. cbn.
    destruct (labelCache w !! oq) as [[label ts]|].
    + destruct (_ <? _).
      * exists label. eexists. exists []. cbn. rewrite app_nil_r. auto.
      * destruct (Hgen (clock P (ticks w))
          {| labelCache := labelCache w; tldsCache := tldsCache w;
             ticks := S (ticks w); calls := calls w |})
          as (l & w' & E & Hc & Ht).
        exists l, w'. eexists. rewrite E. cbn in *. eauto.
    + destruct (Hgen (clock P (ticks w))
          {| labelCache := labelCache w; tldsCache := tldsCache w;
             ticks := S (ticks w); calls := calls w |})
          as (l & w' & E & Hc & Ht).
      exists l, w'. eexists. rewrite E. cbn in *. eauto.
  - exists nq, w, []. rewrite app_nil_r. auto.
Qed.

(** The TLD step either answers, from a fresh cache without any call or
    from a registrar call that resolved, or rejects with the message of
    the registrar call it made. *)
Lemma getSupportedTlds_run (P : Providers) (t : option string) (w : World) :
  (exists tlds w',
      Route.getSupportedTlds P t w = (Resolved tlds, w')
      /\ (calls w' = calls w
          \/ (calls w' = calls w ++ [CallGetSupportedTlds t]
              /\ exists v, sdkGetSupportedTlds P t = Resolved v)))
  \/ (exists m w',
      Route.getSupportedTlds P t w = (Rejected m, w')
      /\ calls w' = calls w ++ [CallGetSupportedTlds t]
      /\ sdkGetSupportedTlds P t = Rejected m).
Proof.
  assert (Hfetch : forall w0,
    (exists tlds w',
        Route.fetchSupportedTlds P t w0 = (Resolved tlds, w')
        /\ calls w' = calls w0 ++ [CallGetSupportedTlds t]
        /\ exists v, sdkGetSupportedTlds P t = Resolved v)
    \/ (exists m w',
        Route.fetchSupportedTlds P t w0 = (Rejected m, w')
        /\ calls w' = calls w0 ++ [CallGetSupportedTlds t]
        /\ sdkGetSupportedTlds P t = Rejected m)).
  { intros w0. unfold Route.fetchSupportedTlds. run_async. cbn.
    destruct (sdkGetSupportedTlds P t) as [v|m]; cbn.
    - left. do 2 eexists. split; [reflexivity|]. cbn. eauto.
    - right. do 2 eexists. split; [reflexivity|]. cbn. eauto. }
  unfold Route.getSupportedTlds. run_async. cbn.
  set (w1 := {| labelCache := labelCache w; tldsCache := tldsCache w;
                ticks := S (ticks w); calls := calls w |}).
  assert (Hw1 : calls w1 = calls w) by reflexivity.
  destruct (tldsCache w) as [[tlds ts]|].
  - destruct (_ <? _).
    + left. exists tlds, w1. auto.
    + destruct (Hfetch w1) as [(l & w' & E & Hc & Hv)|(m & w' & E & Hc & Hr)].
      * left. exists l, w'. rewrite <- Hw1. auto.
      * right. exists m, w'. rewrite <- Hw1. auto.
  - destruct (Hfetch w1) as [(l & w' & E & Hc & Hv)|(m & w' & E & Hc & Hr)].
    + left. exists l, w'. rewrite <- Hw1. auto.
    + right. exists m, w'. rewrite <- Hw1. auto.
Qed.

(** The body, query and team identifier the handler reads off a request. *)
Lemma POST_early (P : Providers) (request : option value) (w : World) :
  let body := match request with Some v => v | None => Obj [] end in
  (nullish body = true ->
     Route.POST P request w =
       (Resolved {| status := 500;
                    body := Route.errorBody
                      "Cannot read properties of null (reading 'q')" |}, w))
  /\ (nullish body = false ->
      JS.truthy (Route.queryOf (get body "q")) = false ->
      Route.POST P request w
        = (Resolved (Route.ok (Route.domainsBody (Arr []))), w)).
Proof.
  cbn zeta. split.
  - intros Hn. unfold Route.POST, Route.handle. run_async.
    rewrite readProp_run, Hn. reflexivity.
  - intros Hn Hq. unfold Route.POST, Route.handle. run_async.
    rewrite readProp_run, Hn. cbn beta iota.
    rewrite readProp_run, Hn. cbn beta iota. rewrite Hq. reflexivity.
Qed.

(** A request with a non-empty query: the label step, then the TLD step,
    then one bulk-availability request, whose outcome decides the answer;
    a rejected TLD step ends the request before the bulk request. *)
Lemma POST_search (P : Providers) (request : option value) (w : World) :
  let body := match request with Some v => v | None => Obj [] end in
  let q := Route.queryOf (get body "q") in
  let t := Route.teamIdOf (get body "teamId") in
  let nq := replace_LEADING_DOT_RE q in
  nullish body = false ->
  JS.truthy q = true ->
  exists label gen w',
    (gen = [] \/ gen = [CallGenerateText (Route.promptOf q)])
    /\ ((exists m,
           sdkGetSupportedTlds P t = Rejected m
           /\ Route.POST P request w
              = (Resolved {| status := 500; body := Route.errorBody m |}, w')
           /\ calls w' = calls w ++ gen ++ [CallGetSupportedTlds t])
        \/ (exists tlds tcall,
           (tcall = []
            \/ (tcall = [CallGetSupportedTlds t]
                /\ exists v, sdkGetSupportedTlds P t = Resolved v))
           /\ calls w' = calls w ++ gen ++ tcall ++
                [CallGetBulkAvailability t
                   (Route.buildDomainsToCheck (Route.looksLikeDomain q)
                      nq label tlds)]
           /\ Route.POST P request w =
                (match sdkGetBulkAvailability P t
                         (Route.buildDomainsToCheck (Route.looksLikeDomain q)
                            nq label tlds) with
                 | Resolved v => Resolved (Route.ok (Route.domainsBody v))
                 | Rejected m =>
                     Resolved {| status := 500; body := Route.errorBody m |}
                 end, w'))).
Proof.
  cbn zeta. intros Hn Hq.
  set (body := match request with Some v => v | None => Obj [] end) in *.
  set (q := Route.queryOf (get body "q")) in *.
  set (t := Route.teamIdOf (get body "teamId")).
  destruct (getSearchLabelFromQuery_run P q (replace_LEADING_DOT_RE q) "" w)
    as (label & w1 & gen & E1 & Hc1 & Hgen & _).
  exists label, gen.
  unfold Route.POST, Route.handle. run_async.
  fold body. rewrite readProp_run, Hn. cbn beta iota.
  rewrite readProp_run, Hn. cbn beta iota. fold q t. rewrite Hq. cbn [negb].
  rewrite E1.
  destruct (getSupportedTlds_run P t w1)
    as [(tlds & w2 & E2 & Hc2)|(m & w2 & E2 & Hc2 & Hr)]; rewrite E2.
  - rewrite bulkAvailability_run.
    eexists. split; [exact Hgen|]. right.
    exists tlds.
    destruct Hc2 as [Hc2|[Hc2 Hv]].
    + exists []. split; [now left|]. split; cycle 1.
      * destruct (sdkGetBulkAvailability P t _); reflexivity.
      * cbn. rewrite Hc2, Hc1. now rewrite <- app_assoc.
    + exists [CallGetSupportedTlds t]. split; [right; now split|].
      split; cycle 1.
      * destruct (sdkGetBulkAvailability P t _); reflexivity.
      * cbn. rewrite Hc2, Hc1. now rewrite <- !app_assoc.
  - exists w2. split; [exact Hgen|]. left. exists m.
    split; [exact Hr|]. split; [reflexivity|].
    rewrite Hc2, Hc1. now rewrite <- app_assoc.
Qed.

Lemma PlainPOST_early (P : Providers) (request : option value) (w : World) :
  let body := match request with Some v => v | None => Obj [] end in
  (nullish body = true ->
     RoutePlain.POST P request w =
       (Resolved {| status := 500;
                    body := Route.errorBody
                      "Cannot read properties of null (reading 'q')" |}, w))
  /\ (nullish body = false ->
      JS.truthy (Route.queryOf (get body "q")) = false ->
      RoutePlain.POST P request w
        = (Resolved (Route.ok (Route.domainsBody (Arr []))), w)).
Proof.
  cbn zeta. split.
  - intros Hn. unfold RoutePlain.POST, RoutePlain.handle. run_async.
    rewrite readProp_run, Hn. reflexivity.
  - intros Hn Hq. unfold RoutePlain.POST, RoutePlain.handle. run_async.
    rewrite readProp_run, Hn. cbn beta iota.
    rewrite readProp_run, Hn. cbn beta iota. rewrite Hq. reflexivity.
Qed.


(** C8. When the [q] of the request body is a string that trims to the
    empty string (so an empty or white-space-only [q]), both revisions of
    [POST] answer [{ domains: [] }] with status 200 and leave the world as
    it was: the call log gains nothing, so neither the TLD endpoint, nor
    the text generation, nor the bulk-availability endpoint is called. *)
Theorem POST_blank_query_short_circuits
    (P : Providers) (fields : list (string * value)) (s : string) (w : World) :
  lookupField "q" fields = Str s ->
  trim s = ""%string ->
  Route.POST P (Some (Obj fields)) w
    = (Resolved {| status := 200; body := Obj [("domains", Arr [])] |}, w)
  /\ RoutePlain.POST P (Some (Obj fields)) w
    = (Resolved {| status := 200; body := Obj [("domains", Arr [])] |}, w)
  /\ calls (snd (Route.POST P (Some (Obj fields)) w)) = calls w
  /\ calls (snd (RoutePlain.POST P (Some (Obj fields)) w)) = calls w.
Proof.
  intros Hq Htrim.
  assert (H1 : Route.POST P (Some (Obj fields)) w
    = (Resolved {| status := 200; body := Obj [("domains", Arr [])] |}, w)).
  { unfold Route.POST, Route.handle, Route.readProp. run_async. cbn [get].
    rewrite Hq. cbn [Route.queryOf]. rewrite Htrim, toLowerCase_empty.
    reflexivity. }
  assert (H2 : RoutePlain.POST P (Some (Obj fields)) w
    = (Resolved {| status := 200; body := Obj [("domains", Arr [])] |}, w)).
  { unfold RoutePlain.POST, RoutePlain.handle, Route.readProp. run_async.
    cbn [get]. rewrite Hq. cbn [Route.queryOf].
    rewrite Htrim, toLowerCase_empty. reflexivity. }
  rewrite H1, H2. auto.
Qed.

(** The same answer is given when the body does not parse, and when it
    has no [q] or a [q] that is not a string. *)
Lemma POST_without_query
    (P : Providers) (fields : list (string * value)) (w : World) :
  (forall s, lookupField "q" fields <> Str s) ->
  Route.POST P None w
    = (Resolved {| status := 200; body := Obj [("domains", Arr [])] |}, w)
  /\ Route.POST P (Some (Obj fields)) w
    = (Resolved {| status := 200; body := Obj [("domains", Arr [])] |}, w).
Proof.
  intros Hq. split.
  - now apply (proj2 (POST_early P None w)).
  - apply (proj2 (POST_early P (Some (Obj fields)) w)); [reflexivity|].
    cbn [get]. destruct (lookupField "q" fields); try reflexivity.
    now destruct (Hq s).
Qed.

(** The hypotheses of C8 hold for the body [{ q: "   " }]. *)
Lemma POST_blank_query_short_circuits_witness :
  lookupField "q" [("q", Str "   ")] = Str "   "
  /\ trim "   " = ""%string
  /\ Route.POST (Sample.answering "brand" ["com"])
       (Some (Obj [("q", Str "   ")])) Sample.emptyWorld
     = (Resolved {| status := 200; body := Obj [("domains", Arr [])] |},
        Sample.emptyWorld).
Proof.
  split; [reflexivity|]. split; [reflexivity|].
  apply (POST_blank_query_short_circuits
           (Sample.answering "brand" ["com"]) [("q", Str "   ")] "   "
           Sample.emptyWorld); reflexivity.
Defined.

(** A rejected text generation is not an error of the request: the
    fallback label is used and the request succeeds. *)
Example generation_failure_is_absorbed :
  fst (Route.POST (Sample.generationDown "gateway timeout" ["com"; "io"])
         (Some (Obj [("q", Str "my idea")])) Sample.emptyWorld)
  = Resolved {| status := 200;
                body := Obj [("domains",
                              Arr [Str "myidea.com"; Str "myidea.io"])] |}.
Proof. vm_compute. reflexivity. Qed.

(** A rejected bulk-availability request is. *)
Example bulk_failure_is_surfaced :
  fst (Route.POST (Sample.bulkDown "registrar unavailable" ["com"; "io"])
         (Some (Obj [("q", Str "idea")])) Sample.emptyWorld)
  = Resolved {| status := 500;
                body := Obj [("error", Str "registrar unavailable")] |}.
Proof. vm_compute. reflexivity. Qed.

(** The example of the specification: "my cool idea", for which the
    generation returns "My Cool Idea!!", is searched as "mycoolidea" over
    the priority TLDs first. *)
Example generated_label_fans_out :
  bulkRequests
    (calls (snd (Route.POST
                   (Sample.answering "My Cool Idea!!" ["zone"; "net"; ".com"])
                   (Some (Obj [("q", Str "my cool idea")]))
                   Sample.emptyWorld)))
  = [["mycoolidea.com"; "mycoolidea.net"; "mycoolidea.zone"]].
Proof. vm_compute. reflexivity. Qed.

Lemma bulkRequests_app (l k : list Call) :
  bulkRequests (l ++ k) = bulkRequests l ++ bulkRequests k.
Proof.
  induction l as [|c l IH]; [reflexivity|].
  destruct c; cbn; now rewrite IH.
Qed.

Lemma looksLikeDomain_iff (q : string) :
  Route.looksLikeDomain q = true
  <-> In dot (chars q) /\ ~ In space (chars q).
Proof.
  unfold Route.looksLikeDomain.
  rewrite andb_true_iff, negb_true_iff, includesChar_In, includesChar_false.
  reflexivity.
Qed.

(** How the code classifies. A query is taken as a full domain exactly
    when it contains a dot and no space character (U+0020); other white
    space, such as a TAB, does not matter. In that mode the candidate list
    is the normalized query alone, whatever the label and the TLD list
    are, and a request served by [POST] sends exactly one
    bulk-availability request, carrying that one candidate, unless the
    supported-TLD fetch was rejected, in which case none is sent. *)
Theorem full_domain_mode_single_candidate :
  (forall q,
      Route.looksLikeDomain q = true
      <-> In dot (chars q) /\ ~ In space (chars q))
  /\ (forall normalizedQ searchLabel tlds,
        Route.buildDomainsToCheck true normalizedQ searchLabel tlds
        = [normalizedQ])
  /\ (forall (P : Providers) (request : option value) (w : World),
        let body := match request with Some v => v | None => Obj [] end in
        let q := Route.queryOf (get body "q") in
        let t := Route.teamIdOf (get body "teamId") in
        nullish body = false ->
        JS.truthy q = true ->
        Route.looksLikeDomain q = true ->
        exists resp w' new,
          Route.POST P request w = (Resolved resp, w')
          /\ calls w' = calls w ++ new
          /\ (bulkRequests new = [[replace_LEADING_DOT_RE q]]
              \/ (bulkRequests new = []
                  /\ exists m, sdkGetSupportedTlds P t = Rejected m))).
Proof.
  split; [exact looksLikeDomain_iff|]. split; [reflexivity|].
  intros P request w body q t Hn Hq Hd. subst body q t.
  destruct (POST_search P request w Hn Hq)
    as (label & gen & w' & Hgen & [(m & Hr & E & Hc)|(tlds & tcall & Ht & Hc & E)]).
  - do 3 eexists. split; [exact E|]. split; [exact Hc|]. right.
    split; [|now exists m].
    rewrite bulkRequests_app. destruct Hgen as [->| ->]; reflexivity.
  - rewrite Hd in Hc, E. cbn [Route.buildDomainsToCheck] in Hc, E.
    destruct (sdkGetBulkAvailability P _ _).
    all: do 3 eexists; split; [exact E|]; split; [exact Hc|]; left.
    all: rewrite !bulkRequests_app.
    all: destruct Hgen as [->| ->]; destruct Ht as [->|[-> _]]; reflexivity.
Qed.

(** The query of the specification's example, " Example.com ". *)
Lemma full_domain_mode_single_candidate_witness :
  nullish (Obj [("q", Str " Example.com ")]) = false
  /\ JS.truthy (Route.queryOf (Str " Example.com ")) = true
  /\ Route.looksLikeDomain (Route.queryOf (Str " Example.com ")) = true
  /\ exists resp w' new,
       Route.POST (Sample.answering "brand" ["io"; "com"])
         (Some (Obj [("q", Str " Example.com ")])) Sample.emptyWorld
       = (Resolved resp, w')
       /\ calls w' = calls Sample.emptyWorld ++ new
       /\ (bulkRequests new
             = [[replace_LEADING_DOT_RE (Route.queryOf (Str " Example.com "))]]
           \/ (bulkRequests new = []
               /\ exists m,
                   sdkGetSupportedTlds (Sample.answering "brand" ["io"; "com"])
                     None = Rejected m)).
Proof.
  split; [reflexivity|]. split; [reflexivity|]. split; [reflexivity|].
  apply (proj2 (proj2 full_domain_mode_single_candidate)
           (Sample.answering "brand" ["io"; "com"])
           (Some (Obj [("q", Str " Example.com ")])) Sample.emptyWorld);
    reflexivity.
Defined.

(** C5 at a query with a TAB in it, "a<TAB>b.com". It contains a dot and
    white space, so it is no full domain; the label step, which tests
    [/\s+/], takes it as several words and pays a text generation call
    for it; and yet the mode test, which looks for a space character
    only, takes it as a full domain, drops the generated label, and sends
    the query itself, TAB included, to the registrar as the one
    candidate. *)
Theorem tab_query_taken_as_full_domain :
  toLowerCase (trim Sample.tabbedDomain) = Sample.tabbedDomain
  /\ includesChar Sample.tabbedDomain dot = true
  /\ existsb isWhiteSpace (chars Sample.tabbedDomain) = true
  /\ test_WHITESPACE_RE Sample.tabbedDomain = true
  /\ Route.looksLikeDomain Sample.tabbedDomain = true
  /\ calls (snd (Route.POST (Sample.answering "brand" ["io"; "com"])
                   (Some (Obj [("q", Str Sample.tabbedDomain)]))
                   Sample.emptyWorld))
     = [ CallGenerateText (Route.promptOf Sample.tabbedDomain);
         CallGetSupportedTlds None;
         CallGetBulkAvailability None [Sample.tabbedDomain] ]
  /\ fst (Route.POST (Sample.answering "brand" ["io"; "com"])
            (Some (Obj [("q", Str Sample.tabbedDomain)]))
            Sample.emptyWorld)
     = Resolved (Route.ok (Route.domainsBody (Arr [Str Sample.tabbedDomain]))).
Proof. repeat split; vm_compute; reflexivity. Qed.

End RouteFacts.

(* ===================================================================== *)
(** * The label synthesizer                                               *)
(* ===================================================================== *)

Module LabelFacts.
Import JS Re Json Async Log.
Import StringFacts RouteFacts.

Lemma forallb_filter_same {A} (f : A -> bool) (l : list A) :
  forallb f (List.filter f l) = true.
Proof.
  induction l as [|x l IH]; cbn; [reflexivity|].
  destruct (f x) eqn:Hx; cbn; [now rewrite Hx|assumption].
Qed.

Lemma filter_id {A} (f : A -> bool) (l : list A) :
  forallb f l = true -> List.filter f l = l.
Proof.
  induction l as [|x l IH]; cbn; [reflexivity|].
  intros [Hx Hl]%andb_true_iff. rewrite Hx. now f_equal; apply IH.
Qed.

Lemma map_lowerChar_id (l : list ascii) :
  forallb isLabelChar l = true -> map lowerChar l = l.
Proof.
  induction l as [|c l IH]; cbn; [reflexivity|].
  intros [Hc Hl]%andb_true_iff. now rewrite (label_lower c Hc), IH.
Qed.

Lemma dropFirstWhitespaceRun_id (l : list ascii) :
  forallb isLabelChar l = true -> dropFirstWhitespaceRun l = l.
Proof.
  induction l as [|c l IH]; cbn; [reflexivity|].
  intros [Hc Hl]%andb_true_iff.
  now rewrite (label_not_whitespace c Hc), IH.
Qed.

Lemma dropFirstQuote_id (l : list ascii) :
  headAvoids isQuote l -> dropFirstQuote l = l.
Proof. destruct l as [|c l]; cbn; [reflexivity|]. now intros ->. Qed.

(** Whatever the input, the output is the first 63 characters of a string
    of label characters with the hyphens trimmed off both ends. *)
Lemma domainLabelFromTitle_chars (x : string) :
  exists L,
    (List.length L <= JS.length x)%nat
    /\ chars (Route.domainLabelFromTitle x)
       = firstn 63 (dropWhileEnd isHyphen
                      (dropWhile isHyphen (List.filter isLabelChar L))).
Proof.
  unfold Route.domainLabelFromTitle.
  destruct (JS.truthy x); cbn [negb].
  - cbv zeta.
    unfold replace_TRIM_HYPHEN_RE, replace_NON_LABEL_RE.
    rewrite !chars_str.
    match goal with
    | |- context [List.filter isLabelChar ?l] => exists l; set (L := l)
    end.
    split.
    + subst L.
      unfold replace_WHITESPACE_RE, replace_LEADING_DOTS_RE,
        replace_SURROUNDING_QUOTE_RE.
      rewrite !chars_str.
      etransitivity; [apply dropFirstWhitespaceRun_length|].
      etransitivity; [apply dropWhile_length|].
      etransitivity; [apply dropLastQuote_length|].
      etransitivity; [apply dropFirstQuote_length|].
      rewrite chars_length.
      etransitivity; [apply trim_length|].
      now rewrite toLowerCase_length.
    + set (core := dropWhileEnd isHyphen
                     (dropWhile isHyphen (List.filter isLabelChar L))).
      rewrite length_str.
      destruct (63 <? List.length core)%nat eqn:Hlen.
      * unfold sliceTo. now rewrite !chars_str.
      * apply Nat.ltb_ge in Hlen. rewrite chars_str.
        now rewrite firstn_all2.
  - exists []. split; [cbn; lia | reflexivity].
Qed.

(** The parts of C4 that hold for every input: the output has at most 63
    characters, all of them in [[a-z0-9-]], and it starts neither with a
    hyphen nor with a dot. *)
Lemma domainLabelFromTitle_shape (x : string) :
  forallb isLabelChar (chars (Route.domainLabelFromTitle x)) = true
  /\ (JS.length (Route.domainLabelFromTitle x) <= 63)%nat
  /\ headAvoids isHyphen (chars (Route.domainLabelFromTitle x))
  /\ headAvoids isDot (chars (Route.domainLabelFromTitle x)).
Proof.
  destruct (domainLabelFromTitle_chars x) as (L & _ & HL).
  assert (Hall : forallb isLabelChar (chars (Route.domainLabelFromTitle x))
                 = true).
  { rewrite HL. apply forallb_firstn, forallb_dropWhileEnd, forallb_dropWhile,
      forallb_filter_same. }
  split; [exact Hall|]. split; [|split].
  - rewrite <- (str_chars (Route.domainLabelFromTitle x)), length_str, HL.
    apply firstn_le_length.
  - rewrite HL. apply headAvoids_firstn.
    destruct (dropWhileEnd_prefix isHyphen
                (dropWhile isHyphen (List.filter isLabelChar L)))
      as [suf Hsuf].
    apply (headAvoids_prefix _ _ suf). rewrite <- Hsuf.
    apply dropWhile_head.
  - eapply headAvoids_of_forallb; [apply label_not_dot | exact Hall].
Qed.

(** A valid label is a fixed point of [domainLabelFromTitle]. *)
Lemma domainLabelFromTitle_fixes_valid (l : list ascii) :
  Spec.validLabel l -> Route.domainLabelFromTitle (str l) = str l.
Proof.
  intros (Hall & Hhead & Hlast & Hlen).
  assert (Hrev : forallb isLabelChar (rev l) = true)
    by now rewrite forallb_rev.
  unfold Route.domainLabelFromTitle.
  destruct (JS.truthy (str l)) eqn:Ht; cbn [negb].
  - cbv zeta.
    assert (E1 : toLowerCase (str l) = str l).
    { unfold toLowerCase. now rewrite chars_str, map_lowerChar_id. }
    assert (E2 : trim (str l) = str l).
    { unfold trim, trimChars. rewrite chars_str.
      rewrite (dropWhile_id isWhiteSpace l)
        by (eapply headAvoids_of_forallb; eauto using label_not_whitespace).
      rewrite dropWhileEnd_id; [reflexivity|].
      eapply headAvoids_of_forallb; eauto using label_not_whitespace. }
    assert (E3 : replace_SURROUNDING_QUOTE_RE (str l) = str l).
    { unfold replace_SURROUNDING_QUOTE_RE, dropLastQuote. rewrite chars_str.
      rewrite (dropFirstQuote_id l)
        by (eapply headAvoids_of_forallb; eauto using label_not_quote).
      rewrite (dropFirstQuote_id (rev l))
        by (eapply headAvoids_of_forallb; eauto using label_not_quote).
      now rewrite rev_involutive. }
    assert (E4 : replace_LEADING_DOTS_RE (str l) = str l).
    { unfold replace_LEADING_DOTS_RE. rewrite chars_str, dropWhile_id;
        [reflexivity|].
      eapply headAvoids_of_forallb; eauto using label_not_dot. }
    assert (E5 : replace_WHITESPACE_RE (str l) = str l).
    { unfold replace_WHITESPACE_RE.
      now rewrite chars_str, dropFirstWhitespaceRun_id. }
    assert (E6 : replace_NON_LABEL_RE (str l) = str l).
    { unfold replace_NON_LABEL_RE. now rewrite chars_str, filter_id. }
    assert (E7 : replace_TRIM_HYPHEN_RE (str l) = str l).
    { unfold replace_TRIM_HYPHEN_RE.
      now rewrite chars_str, (dropWhile_id isHyphen l), dropWhileEnd_id. }
    rewrite E1, E2, E3, E4, E5, E6, E7, length_str.
    destruct (63 <? List.length l)%nat eqn:Hcut; [|reflexivity].
    apply Nat.ltb_lt in Hcut. lia.
  - now apply truthy_false_iff in Ht.
Qed.

(** The part of C3 that holds: applying [domainLabelFromTitle] twice is
    the same as applying it once whenever the first output does not end
    with a hyphen, which can only fail when the cut to 63 characters
    applies. *)
Lemma domainLabelFromTitle_idempotent_unless_cut (x : string) :
  headAvoids isHyphen (rev (chars (Route.domainLabelFromTitle x))) ->
  Route.domainLabelFromTitle (Route.domainLabelFromTitle x)
  = Route.domainLabelFromTitle x.
Proof.
  intros Hlast.
  destruct (domainLabelFromTitle_shape x) as (Hall & Hlen & Hhead & _).
  set (y := Route.domainLabelFromTitle x) in *.
  rewrite <- (str_chars y).
  apply domainLabelFromTitle_fixes_valid. repeat split; try assumption.
  now rewrite <- (str_chars y), length_str in Hlen.
Qed.

(** Below the cap no hyphen is left at the end: an input of at most 63
    characters gives a valid label. *)
Lemma domainLabelFromTitle_valid_below_cap (x : string) :
  (JS.length x <= 63)%nat ->
  Spec.validLabel (chars (Route.domainLabelFromTitle x)).
Proof.
  intros Hx.
  destruct (domainLabelFromTitle_shape x) as (Hall & Hlen & Hhead & _).
  repeat split; try assumption; [|now rewrite chars_length].
  destruct (domainLabelFromTitle_chars x) as (L & HL & E).
  rewrite E, firstn_all2; [apply dropWhileEnd_last|].
  etransitivity; [apply dropWhileEnd_length|].
  etransitivity; [apply dropWhile_length|].
  etransitivity; [apply filter_length_le|]. lia.
Qed.

(** The title handed to [domainLabelFromTitle] by [getSearchLabelFromQuery]
    has at most 30 characters, so a generated label is always valid: the
    cut to 63 characters never applies inside the route. *)
Lemma finalTitleOf_length (title : string) :
  (JS.length (Route.finalTitleOf title) <= 30)%nat.
Proof.
  unfold Route.finalTitleOf. cbv zeta.
  destruct (30 <? _)%nat eqn:Hlen.
  - rewrite append_length.
    pose proof (trim_length (sliceTo 27
      (replace_SURROUNDING_QUOTE_RE (trim (orElse title ""))))) as H1.
    pose proof (sliceTo_length 27
      (replace_SURROUNDING_QUOTE_RE (trim (orElse title "")))) as H2.
    change (JS.length "...") with 3%nat. lia.
  - now apply Nat.ltb_ge in Hlen.
Qed.

Lemma generated_label_valid (title : string) :
  Spec.validLabel
    (chars (Route.domainLabelFromTitle (Route.finalTitleOf title))).
Proof.
  apply domainLabelFromTitle_valid_below_cap.
  pose proof (finalTitleOf_length title). lia.
Qed.

(** C3, as the code has it. [domainLabelFromTitle] is idempotent on every
    input of at most 63 characters, and so on every title that
    [getSearchLabelFromQuery] hands to it, which has at most 30. *)
Theorem domainLabelFromTitle_idempotent_below_cap (x : string) :
  (JS.length x <= 63)%nat \/ (exists title, x = Route.finalTitleOf title) ->
  Route.domainLabelFromTitle (Route.domainLabelFromTitle x)
  = Route.domainLabelFromTitle x.
Proof.
  intros Hx.
  assert (Hlen : (JS.length x <= 63)%nat).
  { destruct Hx as [Hx|[title ->]]; [exact Hx|].
    pose proof (finalTitleOf_length title). lia. }
  pose proof (domainLabelFromTitle_valid_below_cap x Hlen) as Hv.
  set (y := Route.domainLabelFromTitle x) in *.
  rewrite <- (str_chars y).
  now apply domainLabelFromTitle_fixes_valid.
Qed.

Lemma domainLabelFromTitle_idempotent_below_cap_witness :
  (JS.length " -My Cool- Idea!!- " <= 63)%nat
  /\ Route.domainLabelFromTitle
       (Route.domainLabelFromTitle " -My Cool- Idea!!- ")
     = "mycool-idea"%string.
Proof.
  split; [vm_compute; lia|].
  rewrite (domainLabelFromTitle_idempotent_below_cap " -My Cool- Idea!!- ").
  - vm_compute. reflexivity.
  - left. vm_compute. lia.
Defined.

(** C4, as the code has it. For every input the output has at most 63
    characters, all of them in [[a-z0-9-]], and starts neither with a
    hyphen nor with a dot. When the input has at most 63 characters, as
    has every title that [getSearchLabelFromQuery] hands over, the output
    does not end with a hyphen either: it is a valid label. *)
Theorem domainLabelFromTitle_valid_label (x : string) :
  (forallb isLabelChar (chars (Route.domainLabelFromTitle x)) = true
   /\ (JS.length (Route.domainLabelFromTitle x) <= 63)%nat
   /\ headAvoids isHyphen (chars (Route.domainLabelFromTitle x))
   /\ headAvoids isDot (chars (Route.domainLabelFromTitle x)))
  /\ ((JS.length x <= 63)%nat \/ (exists title, x = Route.finalTitleOf title) ->
      headAvoids isHyphen (rev (chars (Route.domainLabelFromTitle x)))
      /\ Spec.validLabel (chars (Route.domainLabelFromTitle x))).
Proof.
  split; [apply domainLabelFromTitle_shape|].
  intros Hx.
  assert (Hlen : (JS.length x <= 63)%nat).
  { destruct Hx as [Hx|[title ->]]; [exact Hx|].
    pose proof (finalTitleOf_length title). lia. }
  pose proof (domainLabelFromTitle_valid_below_cap x Hlen) as Hv.
  split; [|exact Hv]. now destruct Hv as (_ & _ & Hlast & _).
Qed.

Lemma domainLabelFromTitle_valid_label_witness :
  Route.domainLabelFromTitle " -My Cool- Idea!!- " = "mycool-idea"%string
  /\ Spec.validLabel (chars (Route.domainLabelFromTitle " -My Cool- Idea!!- ")).
Proof.
  split; [vm_compute; reflexivity|].
  apply (proj2 (domainLabelFromTitle_valid_label " -My Cool- Idea!!- ")).
  left. vm_compute. lia.
Defined.

(** The claim C4 as stated fails at a 64-character input: the hyphens
    are trimmed before the cut to 63 characters, so the cut can end on a
    hyphen. The output then is 63 characters long, made of label
    characters only, and ends with a hyphen: it is not a valid label. *)
Theorem domainLabelFromTitle_cut_ends_on_hyphen :
  JS.length Sample.longTitle = 64%nat
  /\ Route.domainLabelFromTitle Sample.longTitle = Sample.sixtyTwo +:+ "-"
  /\ JS.length (Route.domainLabelFromTitle Sample.longTitle) = 63%nat
  /\ forallb isLabelChar (chars (Route.domainLabelFromTitle Sample.longTitle))
     = true
  /\ List.last (chars (Route.domainLabelFromTitle Sample.longTitle)) dot
     = hyphen
  /\ ~ Spec.validLabel (chars (Route.domainLabelFromTitle Sample.longTitle)).
Proof.
  assert (E : Route.domainLabelFromTitle Sample.longTitle
              = Sample.sixtyTwo +:+ "-") by (vm_compute; reflexivity).
  rewrite E. repeat split; try (vm_compute; reflexivity).
  intros (_ & _ & Hlast & _). vm_compute in Hlast. discriminate.
Qed.

(** The claim C3 as stated fails at the same input: a second
    application trims the hyphen the cut left behind, so the first output
    is not a fixed point. *)
Theorem domainLabelFromTitle_twice_differs :
  Route.domainLabelFromTitle Sample.longTitle = Sample.sixtyTwo +:+ "-"
  /\ Route.domainLabelFromTitle (Route.domainLabelFromTitle Sample.longTitle)
     = Sample.sixtyTwo
  /\ Route.domainLabelFromTitle (Route.domainLabelFromTitle Sample.longTitle)
     <> Route.domainLabelFromTitle Sample.longTitle.
Proof.
  assert (E1 : Route.domainLabelFromTitle Sample.longTitle
               = Sample.sixtyTwo +:+ "-") by (vm_compute; reflexivity).
  assert (E2 : Route.domainLabelFromTitle (Sample.sixtyTwo +:+ "-")
               = Sample.sixtyTwo) by (vm_compute; reflexivity).
  rewrite E1, E2. repeat split.
  intros Heq. apply (f_equal JS.length) in Heq. vm_compute in Heq.
  discriminate.
Qed.

(** The parts of C2 that hold. On a label-cache miss a multi-word query
    costs one generation call; whether that call resolves to a usable
    title, resolves to one that sanitizes to nothing, or is rejected, the
    step resolves (no error leaves it) and the label it returns is the
    one it stores under the raw query, stamped with the reading of the
    clock taken on entry. *)
Lemma getSearchLabelFromQuery_miss
    (P : Providers) (oq nq fb : string) (w : World) :
  test_WHITESPACE_RE oq = true ->
  labelMiss w oq (clock P (ticks w)) ->
  Route.getSearchLabelFromQuery P oq nq fb w
  = (Resolved (synthesized P oq nq fb),
     {| labelCache :=
          <[oq := (synthesized P oq nq fb, clock P (ticks w))]> (labelCache w);
        tldsCache := tldsCache w;
        ticks := S (ticks w);
        calls := calls w ++ [CallGenerateText (Route.promptOf oq)] |}).
Proof.
  intros Hmw Hmiss. unfold Route.getSearchLabelFromQuery. rewrite Hmw.
  cbn [negb]. unfold labelMiss in Hmiss.
  assert (Hgen :
    Route.generateLabel P oq nq fb (clock P (ticks w))
      {| labelCache := labelCache w; tldsCache := tldsCache w;
         ticks := S (ticks w); calls := calls w |}
    = (Resolved (synthesized P oq nq fb),
       {| labelCache :=
            <[oq := (synthesized P oq nq fb, clock P (ticks w))]> (labelCache w);
          tldsCache := tldsCache w;
          ticks := S (ticks w);
          calls := calls w ++ [CallGenerateText (Route.promptOf oq)] |})).
  { unfold Route.generateLabel, synthesized. run_async. cbn.
    destruct (generateText P (Route.promptOf oq)) as [title|msg]; cbn;
      [|reflexivity].
    destruct (JS.truthy (Route.domainLabelFromTitle (Route.finalTitleOf title)));
      reflexivity. }
  run_async. cbn.
  destruct (labelCache w !! oq) as [[label ts]|]; [|exact Hgen].
  rewrite Hmiss. exact Hgen.
Qed.

(** A fresh entry is returned as it is, with no call at all. *)
Lemma getSearchLabelFromQuery_hit
    (P : Providers) (oq nq fb label : string) (ts : Z) (w : World) :
  test_WHITESPACE_RE oq = true ->
  labelCache w !! oq = Some (label, ts) ->
  clock P (ticks w) - ts < Route.LABEL_CACHE_TTL ->
  Route.getSearchLabelFromQuery P oq nq fb w
  = (Resolved label,
     {| labelCache := labelCache w; tldsCache := tldsCache w;
        ticks := S (ticks w); calls := calls w |}).
Proof.
  intros Hmw Hc Hfresh. unfold Route.getSearchLabelFromQuery. rewrite Hmw.
  cbn [negb]. run_async. cbn. rewrite Hc.
  apply Z.ltb_lt in Hfresh. now rewrite Hfresh.
Qed.

(** Hence the same raw query, repeated while the clock is within ten
    minutes of the first reading, gets the same label and triggers no
    second generation call. *)
Lemma repeated_query_generates_once
    (P : Providers) (oq nq fb : string) (w : World) :
  test_WHITESPACE_RE oq = true ->
  labelMiss w oq (clock P (ticks w)) ->
  clock P (S (ticks w)) - clock P (ticks w) < Route.LABEL_CACHE_TTL ->
  let first := Route.getSearchLabelFromQuery P oq nq fb w in
  let second := Route.getSearchLabelFromQuery P oq nq fb (snd first) in
  fst second = fst first
  /\ calls (snd second) = calls (snd first)
  /\ generateCalls (calls (snd second))
     = generateCalls (calls w) ++ [Route.promptOf oq].
Proof.
  intros Hmw Hmiss Hfresh. cbv zeta.
  rewrite (getSearchLabelFromQuery_miss P oq nq fb w Hmw Hmiss). cbn [fst snd].
  erewrite getSearchLabelFromQuery_hit; cbn [fst snd labelCache ticks calls];
    [ | exact Hmw | apply lookup_insert_eq | exact Hfresh ].
  repeat split.
  induction (calls w) as [|c l IH]; [reflexivity|].
  destruct c; cbn; now rewrite IH.
Qed.

(** A single-word query is its own label: no clock reading, no cache
    access, no call. *)
Lemma single_word_label (P : Providers) (oq nq fb : string) (w : World) :
  test_WHITESPACE_RE oq = false ->
  Route.getSearchLabelFromQuery P oq nq fb w = (Resolved nq, w).
Proof.
  intros Hmw. unfold Route.getSearchLabelFromQuery. now rewrite Hmw.
Qed.

(** C2 at the query "my cool idea" with the text generation down (and,
    second, with a generated title that sanitizes to nothing): the error
    does not propagate and the returned label is cached, but the label is
    the normalized query with only its first run of white space removed,
    not the whitespace-stripped query: [WHITESPACE_RE] has no [g] flag. *)
Theorem fallback_label_keeps_later_whitespace :
  Spec.whitespaceStripped "my cool idea" = "mycoolidea"%string
  /\ Route.fallbackLabelOf "my cool idea" "" = "mycool idea"%string
  /\ (let r := Route.getSearchLabelFromQuery
                 (Sample.generationDown "gateway timeout" ["com"])
                 "my cool idea" "my cool idea" "" Sample.emptyWorld in
      fst r = Resolved "mycool idea"
      /\ labelCache (snd r) !! "my cool idea"%string = Some ("mycool idea"%string, 0)
      /\ generateCalls (calls (snd r)) = [Route.promptOf "my cool idea"])
  /\ (let r := Route.getSearchLabelFromQuery
                 (Sample.answering "!!!" ["com"])
                 "my cool idea" "my cool idea" "" Sample.emptyWorld in
      fst r = Resolved "mycool idea"
      /\ labelCache (snd r) !! "my cool idea"%string = Some ("mycool idea"%string, 0))
  /\ bulkRequests
       (calls (snd (Route.POST (Sample.generationDown "gateway timeout" ["com"])
                      (Some (Obj [("q", Str "my cool idea")]))
                      Sample.emptyWorld)))
     = [["mycool idea.com"]].
Proof. repeat split; vm_compute; reflexivity. Qed.

End LabelFacts.

(* ===================================================================== *)
(** * The search coordinator                                              *)
(* ===================================================================== *)

Module PageFacts.
Import JS Json Page.

Lemma findById_removeById (id : nat) (l : list (nat * string)) :
  findById id (removeById id l) = None.
Proof.
  unfold findById, removeById.
  induction l as [|[i v] l IH]; cbn; [reflexivity|].
  destruct (Nat.eqb i id) eqn:E; cbn; [exact IH|].
  now rewrite E.
Qed.

(** The reset done when the query becomes empty, by typing, after the
    effect has last run for a query that is not empty: at once, and
    without any request, the timer held by [debounceRef] is cleared, the
    request held by [fetchAbortRef] is aborted, the results are emptied,
    the loading flag is cleared and [q] is removed from the URL. *)
Lemma emptying_resets_at_once (h : Home) :
  renderedQ h <> ""%string ->
  let h' := change "" h in
  q h' = ""%string
  /\ results h' = []
  /\ loading h' = false
  /\ urlQ h' = None
  /\ debounceRef h' = None
  /\ fetchAbortRef h' = None
  /\ sent h' = sent h
  /\ inflight h' = inflight h
  /\ (forall c, fetchAbortRef h = Some c -> c ∈ aborted h')
  /\ (forall id, debounceRef h = Some id -> findById id (timers h') = None).
Proof.
  intros Hq. cbv zeta.
  unfold change, flushEffect, effectDue, runEffect, debounceEffect,
    cancelPending.
  destruct h as [q0 res ld cache [id|] [c|] url tm ab infl fr snt [|a rq]];
    cbn in *; try congruence.
  all: repeat split; try (intros ? [= <-]); try discriminate;
    try set_solver.
  all: exact (findById_removeById _ _).
Qed.

(** The same reset, done by the listener of the clear signal itself,
    from any state. *)
Lemma onClear_resets_at_once (h : Home) :
  let h' := onClear h in
  q h' = ""%string
  /\ results h' = []
  /\ loading h' = false
  /\ urlQ h' = None
  /\ debounceRef h' = None
  /\ fetchAbortRef h' = None
  /\ sent h' = sent h
  /\ inflight h' = inflight h
  /\ (forall c, fetchAbortRef h = Some c -> c ∈ aborted h')
  /\ (forall id, debounceRef h = Some id -> findById id (timers h') = None).
Proof.
  cbv zeta. unfold onClear, cancelPending.
  destruct h as [q0 res ld cache [id|] [c|] url tm ab infl fr snt rq]; cbn.
  all: repeat split; try (intros ? [= <-]); try discriminate;
    try set_solver.
  all: exact (findById_removeById _ _).
Qed.

(** A page mounted without a query parameter is in the initial state; a
    page mounted with one starts debouncing that query. *)
Lemma mount_without_query : mount None = initial.
Proof. reflexivity. Qed.

Lemma mount_with_query :
  (fun h => (q h, loading h, timers h, sent h)) (mount (Some "cats"%string))
  = ("cats"%string, true, [(0%nat, "cats"%string)], []).
Proof. reflexivity. Qed.

(** ** Invariants of the event loop *)

Lemma oneTimer_same (h h' : Home) :
  timers h' = timers h -> debounceRef h' = debounceRef h ->
  oneTimer h -> oneTimer h'.
Proof. unfold oneTimer. intros -> ->. auto. Qed.

Lemma removeById_single (id : nat) (v : string) :
  removeById id [(id, v)] = [].
Proof. unfold removeById. cbn. now rewrite Nat.eqb_refl. Qed.

Lemma debounceEffect_oneTimer (v : string) (h : Home) :
  oneTimer h -> oneTimer (debounceEffect v h).
Proof.
  intros [Ht|(id & v0 & Ht & Hd)];
    destruct h as [q0 res ld cache dref fref url tm ab infl fr snt rq];
    cbn in *; subst.
  - unfold debounceEffect, cancelPending.
    destruct dref as [id|], fref as [c|], v as [|a v]; cbn.
    all: try (now left).
    all: right; eauto.
  - unfold oneTimer, debounceEffect, cancelPending, clearTimeout.
    destruct fref as [c|], v as [|a v]; cbn; rewrite ?Nat.eqb_refl; cbn.
    all: try (now left).
    all: right; eauto.
Qed.

Lemma onClear_oneTimer (h : Home) : oneTimer h -> oneTimer (onClear h).
Proof.
  intros [Ht|(id & v0 & Ht & Hd)];
    destruct h as [q0 res ld cache dref fref url tm ab infl fr snt rq];
    cbn in *; subst.
  - unfold onClear, cancelPending.
    destruct dref as [id|], fref as [c|]; cbn; now left.
  - unfold oneTimer, onClear, cancelPending, clearTimeout.
    destruct fref as [c|]; cbn; rewrite ?Nat.eqb_refl; cbn; now left.
Qed.

Lemma flushEffect_oneTimer (h : Home) :
  oneTimer h -> oneTimer (flushEffect h).
Proof.
  intros Hinv. unfold flushEffect, runEffect.
  destruct (effectDue h); [|assumption].
  apply (oneTimer_same (debounceEffect (q h) h)); try reflexivity.
  now apply debounceEffect_oneTimer.
Qed.

Lemma findById_In (id : nat) (v : string) (l : list (nat * string)) :
  findById id l = Some v -> In (id, v) l.
Proof.
  unfold findById. destruct (find _ l) as [[i v']|] eqn:E; [|discriminate].
  cbn. intros [= ->]. apply find_some in E as [Hin Heq].
  apply Nat.eqb_eq in Heq. cbn in Heq. now subst.
Qed.

Lemma runSearchStart_timers (v : string) (c : nat) (now : Z) (h : Home) :
  timers (runSearchStart v c now h) = timers h
  /\ debounceRef (runSearchStart v c now h) = debounceRef h.
Proof.
  unfold runSearchStart, updateUrl.
  destruct (getCachedSearch v now h); [destruct (JS.truthy v)|]; now cbn.
Qed.

Lemma debounceCallback_timers (v : string) (now : Z) (h : Home) :
  timers (debounceCallback v now h) = timers h
  /\ debounceRef (debounceCallback v now h) = debounceRef h.
Proof.
  unfold debounceCallback. cbv zeta.
  destruct (runSearchStart_timers v
    (fresh match fetchAbortRef h with Some c => abort c h | None => h end) now
    (setFetchAbortRef
       (Some (fresh match fetchAbortRef h with
                    | Some c => abort c h | None => h end))
       (setFresh
          (S (fresh match fetchAbortRef h with
                    | Some c => abort c h | None => h end))
          match fetchAbortRef h with Some c => abort c h | None => h end)))
    as [-> ->].
  destruct (fetchAbortRef h); now cbn.
Qed.

Lemma runSearchResume_timers (v : string) (c : nat) (r : list value)
    (now : Z) (h : Home) :
  timers (runSearchResume v c r now h) = timers h
  /\ debounceRef (runSearchResume v c r now h) = debounceRef h.
Proof.
  unfold runSearchResume, updateUrl. cbv zeta.
  destruct (bool_decide _), (JS.truthy v); now cbn.
Qed.

(** At most one debounce timer is ever pending. *)
Lemma step_oneTimer (h h' : Home) (ev : Event) :
  oneTimer h -> step h ev = Some h' -> oneTimer h'.
Proof.
  intros Hinv. destruct ev as [v| |id now|c e now|]; cbn.
  - intros [= <-]. unfold change. apply flushEffect_oneTimer.
    revert Hinv. now apply oneTimer_same.
  - intros [= <-]. now apply onClear_oneTimer.
  - destruct (findById id (timers h)) as [v|] eqn:Hf; [|discriminate].
    cbn. intros [= <-].
    destruct (debounceCallback_timers v now
                (setTimers (removeById id (timers h)) h)) as [Et Ed].
    left. rewrite Et. cbn.
    destruct Hinv as [Ht|(id0 & v0 & Ht & Hd)].
    + now rewrite Ht.
    + rewrite Ht in Hf |- *. apply findById_In in Hf as [[= -> ->]|[]].
      apply removeById_single.
  - destruct (findById c (inflight h)) as [v|]; [|discriminate].
    cbn. intros [= <-].
    destruct (runSearchResume_timers v c (fetchDomains c e h) now
                (setInflight (removeById c (inflight h)) h)) as [Et Ed].
    revert Hinv. now apply oneTimer_same.
  - pose proof (flushEffect_oneTimer h Hinv) as H. unfold flushEffect in H.
    destruct (effectDue h); [|discriminate]. now intros [= <-].
Qed.

Lemma In_removeById (c c' : nat) (v : string) (l : list (nat * string)) :
  In (c', v) (removeById c l) -> c' <> c /\ In (c', v) l.
Proof.
  unfold removeById. intros [Hin Hne]%filter_In. cbn in Hne.
  apply negb_true_iff, Nat.eqb_neq in Hne. auto.
Qed.

Lemma debounceEffect_oneLiveRequest (v : string) (h : Home) :
  oneLiveRequest h -> oneLiveRequest (debounceEffect v h).
Proof.
  unfold oneLiveRequest.
  destruct h as [q0 res ld cache dref fref url tm ab infl fr snt rq]; cbn.
  intros Hinv c v' Hin. revert Hin.
  unfold debounceEffect, cancelPending.
  destruct dref as [id|], fref as [c0|], v as [|a v]; cbn;
    intros Hin; destruct (Hinv c v' Hin) as [Ha|Hr];
    try (now right); try discriminate;
    try (injection Hr as ->); left;
    rewrite ?elem_of_union, ?elem_of_singleton; auto.
Qed.

Lemma onClear_oneLiveRequest (h : Home) :
  oneLiveRequest h -> oneLiveRequest (onClear h).
Proof.
  unfold oneLiveRequest.
  destruct h as [q0 res ld cache dref fref url tm ab infl fr snt rq]; cbn.
  intros Hinv c v' Hin. revert Hin.
  unfold onClear, cancelPending.
  destruct dref as [id|], fref as [c0|]; cbn;
    intros Hin; destruct (Hinv c v' Hin) as [Ha|Hr];
    try (now right); try discriminate;
    try (injection Hr as ->); left;
    rewrite ?elem_of_union, ?elem_of_singleton; auto.
Qed.

Lemma flushEffect_oneLiveRequest (h : Home) :
  oneLiveRequest h -> oneLiveRequest (flushEffect h).
Proof.
  intros Hinv. unfold flushEffect, runEffect.
  destruct (effectDue h); [|assumption].
  exact (debounceEffect_oneLiveRequest (q h) h Hinv).
Qed.

(** At most one request in flight has a controller that is not aborted:
    the one [fetchAbortRef] holds. *)
Lemma step_oneLiveRequest (h h' : Home) (ev : Event) :
  oneLiveRequest h -> step h ev = Some h' -> oneLiveRequest h'.
Proof.
  intros Hinv. destruct ev as [v| |id now|c e now|]; cbn.
  - intros [= <-]. unfold change.
    apply flushEffect_oneLiveRequest. exact Hinv.
  - intros [= <-]. now apply onClear_oneLiveRequest.
  - destruct (findById id (timers h)) as [v|]; [|discriminate].
    cbn. intros [= <-]. revert Hinv. unfold oneLiveRequest.
    destruct h as [q0 res ld cache dref fref url tm ab infl fr snt rq]; cbn.
    intros Hinv c v' Hin. revert Hin.
    unfold debounceCallback, runSearchStart, updateUrl, getCachedSearch.
    destruct fref as [c0|]; cbn.
    all: destruct (cache !! v) as [[r ts]|]; cbn;
      [destruct (_ <? _); [destruct (JS.truthy v)|]|]; cbn.
    all: intros Hin; try (apply in_app_or in Hin as [Hin|[[= <- <-]|[]]]);
      try (now right).
    all: destruct (Hinv c v' Hin) as [Ha|Hr]; try discriminate;
      try (injection Hr as ->); left;
      rewrite ?elem_of_union, ?elem_of_singleton; auto.
  - destruct (findById c (inflight h)) as [v|]; [|discriminate].
    cbn. intros [= <-]. revert Hinv. unfold oneLiveRequest.
    destruct h as [q0 res ld cache dref fref url tm ab infl fr snt rq]; cbn.
    intros Hinv c' v' Hin. revert Hin.
    unfold runSearchResume, updateUrl. cbn.
    destruct (bool_decide (fref = Some c)) eqn:Hb; cbn;
      destruct (JS.truthy v); cbn; intros Hin;
      apply In_removeById in Hin as [Hne Hin];
      destruct (Hinv c' v' Hin) as [Ha|Hr]; auto.
    all: apply bool_decide_eq_true in Hb; congruence.
  - pose proof (flushEffect_oneLiveRequest h Hinv) as H.
    unfold flushEffect in H.
    destruct (effectDue h); [|discriminate]. now intros [= <-].
Qed.

Lemma flushEffect_inSync (h : Home) : inSync (flushEffect h).
Proof.
  unfold inSync, flushEffect, effectDue, runEffect.
  destruct (String.eqb_spec (q h) (renderedQ h)) as [E|_]; cbn; [auto|].
  intros _. unfold debounceEffect, cancelPending.
  destruct h as [q0 res ld cache [id|] [c|] url tm ab infl fr snt rq];
    destruct q0; reflexivity.
Qed.

Lemma step_inSync (h h' : Home) (ev : Event) :
  inSync h -> step h ev = Some h' -> inSync h'.
Proof.
  intros Hinv. destruct ev as [v| |id now|c e now|]; cbn.
  - intros [= <-]. apply flushEffect_inSync.
  - intros [= <-] Hq. exfalso. apply Hq.
    exact (proj1 (onClear_resets_at_once h)).
  - destruct (findById id (timers h)) as [v|]; [|discriminate].
    cbn. intros [= <-]. revert Hinv. unfold inSync.
    unfold debounceCallback, runSearchStart, updateUrl, getCachedSearch.
    destruct h as [q0 res ld cache dref [c|] url tm ab infl fr snt rq]; cbn.
    all: destruct (cache !! v) as [[r ts]|];
      [destruct (_ <? _); [destruct (JS.truthy v)|]|]; cbn; auto.
  - destruct (findById c (inflight h)) as [v|]; [|discriminate].
    cbn. intros [= <-]. revert Hinv. unfold inSync.
    unfold runSearchResume, updateUrl.
    destruct h as [q0 res ld cache dref fref url tm ab infl fr snt rq]; cbn.
    destruct (bool_decide (fref = Some c)); destruct (JS.truthy v);
      cbn; auto.
  - pose proof (flushEffect_inSync h) as H. unfold flushEffect in H.
    destruct (effectDue h); [|discriminate]. now intros [= <-].
Qed.

Lemma run_inSync (evs : list Event) :
  forall h h', inSync h -> run h evs = Some h' -> inSync h'.
Proof.
  induction evs as [|ev evs IH]; intros h h' Hs; cbn.
  - now intros [= <-].
  - destruct (step h ev) as [h1|] eqn:E; [|discriminate]. cbn.
    apply IH. exact (step_inSync h h1 ev Hs E).
Qed.

(** Both invariants hold in every state the event loop can reach. *)
Lemma run_invariants (evs : list Event) :
  forall h h',
    oneTimer h -> oneLiveRequest h -> run h evs = Some h' ->
    oneTimer h' /\ oneLiveRequest h'.
Proof.
  induction evs as [|ev evs IH]; intros h h' Ht Hl; cbn.
  - intros [= <-]. auto.
  - destruct (step h ev) as [h1|] eqn:E; [|discriminate]. cbn.
    apply IH; eauto using step_oneTimer, step_oneLiveRequest.
Qed.

Lemma reachable_invariants (evs : list Event) (h : Home) :
  run initial evs = Some h -> oneTimer h /\ oneLiveRequest h.
Proof.
  apply run_invariants.
  - now left.
  - intros c v [].
Qed.

(** In a state the event loop can reach, emptying the query leaves no
    timer pending and no request in flight that is not aborted. *)
Lemma emptying_quiets_reachable_state (evs : list Event) (h : Home) :
  run initial evs = Some h ->
  q h <> ""%string ->
  timers (change "" h) = []
  /\ forall c v, In (c, v) (inflight (change "" h)) ->
       c ∈ aborted (change "" h).
Proof.
  intros Hrun Hq.
  destruct (reachable_invariants evs h Hrun) as [Ht Hl].
  assert (Hs : inSync h).
  { apply (run_inSync evs initial h); [|exact Hrun]. intros E. now elim E. }
  assert (Hrq : renderedQ h <> ""%string) by (rewrite (Hs Hq); exact Hq).
  destruct (emptying_resets_at_once h Hrq)
    as (_ & _ & _ & _ & Hd & Hf & _ & _ & _ & _).
  assert (Ht' : oneTimer (change "" h)).
  { apply (step_oneTimer h _ (Change "")); [assumption|reflexivity]. }
  assert (Hl' : oneLiveRequest (change "" h)).
  { apply (step_oneLiveRequest h _ (Change "")); [assumption|reflexivity]. }
  split.
  - destruct Ht' as [E|(id & v & _ & E)]; [exact E|congruence].
  - intros c v Hin. destruct (Hl' c v Hin) as [Ha|Hr]; [exact Ha|congruence].
Qed.

(** The defect behind C1 and C7, in general: when a request whose
    controller has been aborted completes, its continuation still writes
    the empty result into the cache, the results, the loading flag and
    the URL, whatever search is current. *)
Lemma aborted_settle_still_writes
    (h : Home) (c : nat) (v : string) (e : fetchEnd) (t : Z) :
  findById c (inflight h) = Some v ->
  c ∈ aborted h ->
  exists h',
    step h (Settle c e t) = Some h'
    /\ results h' = []
    /\ loading h' = false
    /\ urlQ h' = (if JS.truthy v then Some v else None)
    /\ searchCacheRef h' !! v = Some ([], t)
    /\ q h' = q h.
Proof.
  intros Hf Ha. cbn. rewrite Hf. cbn. eexists. split; [reflexivity|].
  unfold fetchDomains. rewrite (bool_decide_eq_true_2 _ Ha).
  unfold runSearchResume, updateUrl. cbv zeta.
  destruct h as [q0 res ld cache dref fref url tm ab infl fr snt rq]; cbn.
  destruct (bool_decide (fref = Some c)); cbn;
    destruct (JS.truthy v); cbn; repeat split; apply lookup_insert_eq.
Qed.

(** C1 at two traces. First: "cats" (controller 3) is superseded by a
    search for "dogs" that settles at once from the cache; when the
    aborted request then completes, whatever its response, it replaces
    the displayed results of "dogs" by the empty list, sets the URL
    parameter to "cats" and caches the empty list for "cats". Second, the
    scenario of the specification: the completion of the aborted "cats"
    request clears the loading flag while "cats and dogs" is still in
    flight, sets the URL parameter to "cats", and caches the empty list
    for "cats", which a later search for "cats" renders from the cache
    without sending a request. *)
Theorem superseded_completion_mutates_state (e : fetchEnd) (t : Z) :
  ((q <$> run initial Sample.backToCached) = Some "dogs"%string
   /\ (results <$> run initial Sample.backToCached)
      = Some [Str "dogs.com"; Str "dogs.io"]
   /\ (urlQ <$> run initial Sample.backToCached) = Some (Some "dogs"%string)
   /\ (inflight <$> run initial Sample.backToCached)
      = Some [(3%nat, "cats"%string)]
   /\ (q <$> run initial (Sample.backToCached ++ [Settle 3 e t]))
      = Some "dogs"%string
   /\ (results <$> run initial (Sample.backToCached ++ [Settle 3 e t]))
      = Some []
   /\ (urlQ <$> run initial (Sample.backToCached ++ [Settle 3 e t]))
      = Some (Some "cats"%string)
   /\ ((fun h => searchCacheRef h !! "cats"%string)
         <$> run initial (Sample.backToCached ++ [Settle 3 e t]))
      = Some (Some ([], t)))
  /\ ((loading <$> run initial Sample.catsThenCatsAndDogs) = Some true
      /\ (inflight <$> run initial Sample.catsThenCatsAndDogs)
         = Some [(1%nat, "cats"%string); (3%nat, "cats and dogs"%string)]
      /\ (loading <$> run initial (Sample.catsThenCatsAndDogs ++ [Settle 1 e t]))
         = Some false
      /\ (inflight <$> run initial (Sample.catsThenCatsAndDogs ++ [Settle 1 e t]))
         = Some [(3%nat, "cats and dogs"%string)]
      /\ (urlQ <$> run initial (Sample.catsThenCatsAndDogs ++ [Settle 1 e t]))
         = Some (Some "cats"%string)
      /\ ((fun h => searchCacheRef h !! "cats"%string)
            <$> run initial (Sample.catsThenCatsAndDogs ++ [Settle 1 e t]))
         = Some (Some ([], t))
      /\ ((fun h => (results h, loading h, sent h))
            <$> run initial
                  (Sample.catsThenCatsAndDogs
                   ++ [Settle 1 e 1501;
                       Settle 3 (Responded Sample.dogsResponse) 1900;
                       Change "cats"; TimerFires 4 2500]))
         = Some ([], false, ["cats"%string; "cats and dogs"%string])).
Proof. repeat split; vm_compute; reflexivity. Qed.

(** C7 at the trace where "cats" is in flight when the query is emptied
    by typing: the reset itself happens at once (timer gone, request
    aborted, results empty, not loading, no [q] in the URL, nothing
    sent), but when the aborted request completes, whatever its response,
    it puts [q=cats] back into the URL, and nothing is left to run that
    would remove it (no timer, no request, no effect due). When the query
    is emptied by the clear signal the listener does the same reset at
    once; the completion of the aborted request, which runs before the
    effect of the re-render, puts [q=cats] into the URL and the effect
    removes it again. *)
Theorem aborted_completion_restores_url (e : fetchEnd) (t : Z) :
  ((fun h => (q h, results h, loading h, urlQ h, timers h, fetchAbortRef h,
              bool_decide (1%nat ∈ aborted h), sent h))
     <$> run initial Sample.typedThenEmptied)
  = Some (""%string, [], false, None, [], None, true, ["cats"%string])
  /\ ((fun h => (urlQ h, timers h, inflight h, effectDue h))
        <$> run initial (Sample.typedThenEmptied ++ [Settle 1 e t]))
     = Some (Some "cats"%string, [], [], false)
  /\ ((fun h => (q h, results h, loading h, urlQ h, timers h, fetchAbortRef h,
                 bool_decide (1%nat ∈ aborted h), sent h))
        <$> run initial Sample.typedThenCleared)
     = Some (""%string, [], false, None, [], None, true, ["cats"%string])
  /\ (urlQ <$> run initial (Sample.typedThenCleared ++ [Settle 1 e t]))
     = Some (Some "cats"%string)
  /\ ((fun h => (urlQ h, timers h, inflight h, effectDue h))
        <$> run initial
              (Sample.typedThenCleared ++ [Settle 1 e t; EffectRuns]))
     = Some (None, [], [], false).
Proof. repeat split; vm_compute; reflexivity. Qed.

End PageFacts.

(* ===================================================================== *)
(** * More on the TLD candidate selector and the TLD snapshot            *)
(* ===================================================================== *)

Module TldMore.
Import JS Re Json Async Log Reading.
Import StringFacts TldFacts.

Lemma In_arraySlice0 {A} (l : list A) (limit : Z) (x : A) :
  In x (arraySlice0 l limit) -> In x l.
Proof.
  unfold arraySlice0. cbv zeta. intros H.
  rewrite <- (firstn_skipn (Z.to_nat
    (if limit <? 0 then Z.max (Z.of_nat (List.length l) + limit) 0
     else Z.min limit (Z.of_nat (List.length l)))) l).
  apply in_or_app. now left.
Qed.

Lemma pickCandidateTlds_unsliced (tlds : list string) (limit : Z) :
  Route.pickCandidateTlds tlds limit
  = arraySlice0
      (List.filter (arrayIncludes tlds) Route.COMMON
       ++ List.filter (fun t => negb (arrayIncludes Route.COMMON t)) tlds)
      limit.
Proof.
  unfold Route.pickCandidateTlds. cbv zeta.
  now rewrite preferred_is_filter, rest_is_filter.
Qed.

Lemma In_candidates (tlds : list string) (t : string) :
  In t (List.filter (arrayIncludes tlds) Route.COMMON
        ++ List.filter (fun t => negb (arrayIncludes Route.COMMON t)) tlds)
  <-> In t tlds.
Proof.
  rewrite in_app_iff, !filter_In, arrayIncludes_In, negb_true_iff,
    arrayIncludes_false.
  split.
  - intros [[_ H]|[H _]]; exact H.
  - intros H. destruct (in_dec string_dec t Route.COMMON); auto.
Qed.

(** Whatever the limit, every TLD picked is one of the TLDs given: a
    priority TLD that the registrar does not support is never proposed. *)
Theorem pickCandidateTlds_only_supported (tlds : list string) (limit : Z) :
  Forall (fun t => In t tlds) (Route.pickCandidateTlds tlds limit)
  /\ Forall (fun t => In t tlds) (RoutePlain.pickCandidateTlds tlds limit).
Proof.
  assert (H : Forall (fun t => In t tlds) (Route.pickCandidateTlds tlds limit)).
  { apply List.Forall_forall. intros t Hin.
    rewrite pickCandidateTlds_unsliced in Hin.
    apply In_arraySlice0 in Hin. now apply In_candidates. }
  split; exact H.
Qed.

Lemma candidates_NoDup (tlds : list string) :
  List.NoDup tlds ->
  List.NoDup
    (List.filter (arrayIncludes tlds) Route.COMMON
     ++ List.filter (fun t => negb (arrayIncludes Route.COMMON t)) tlds).
Proof.
  intros Hnd. apply NoDup_ListNoDup, NoDup_app. split; [|split].
  - apply NoDup_ListNoDup, List.NoDup_filter, COMMON_NoDup.
  - intros x Hx Hx'. apply list_elem_of_In in Hx, Hx'.
    apply filter_In in Hx as [Hx _]. apply filter_In in Hx' as [_ Hx'].
    apply arrayIncludes_In in Hx. rewrite Hx in Hx'. discriminate.
  - now apply NoDup_ListNoDup, List.NoDup_filter.
Qed.

(** When the TLDs given are distinct and the limit is at least their
    number, nothing is lost: the result is a rearrangement of the input
    (priority TLDs moved to the front). *)
Theorem pickCandidateTlds_rearranges (tlds : list string) (limit : Z) :
  List.NoDup tlds ->
  Z.of_nat (List.length tlds) <= limit ->
  Permutation (Route.pickCandidateTlds tlds limit) tlds.
Proof.
  intros Hnd Hlimit.
  assert (Hperm : Permutation
    (List.filter (arrayIncludes tlds) Route.COMMON
     ++ List.filter (fun t => negb (arrayIncludes Route.COMMON t)) tlds)
    tlds).
  { apply Stdlib.Sorting.Permutation.NoDup_Permutation;
      [now apply candidates_NoDup | assumption |].
    intros t. apply In_candidates. }
  rewrite pickCandidateTlds_unsliced, arraySlice0_nonneg by lia.
  rewrite firstn_all2; [exact Hperm|].
  rewrite (Permutation_length Hperm). lia.
Qed.

Lemma pickCandidateTlds_rearranges_witness :
  List.NoDup ["zone"; "io"; "shop"; "com"]
  /\ Z.of_nat (List.length ["zone"; "io"; "shop"; "com"]) <= 25
  /\ Permutation
       (Route.pickCandidateTlds ["zone"; "io"; "shop"; "com"] 25)
       ["zone"; "io"; "shop"; "com"].
Proof.
  assert (Hnd : List.NoDup ["zone"; "io"; "shop"; "com"]).
  { apply (NoDup_count_occ' string_dec). intros x Hin.
    repeat (destruct Hin as [<-|Hin]; [reflexivity|]). destruct Hin. }
  split; [exact Hnd|]. split; [cbn; lia|].
  apply (pickCandidateTlds_rearranges ["zone"; "io"; "shop"; "com"] 25 Hnd).
  cbn. lia.
Defined.

(** In fan-out mode at most 25 candidates are built, each of them the
    label, a dot and one of the TLDs given, in the order in which
    [pickCandidateTlds] ranks them. *)
Theorem fan_out_candidates (normalizedQ searchLabel : string)
    (tlds : list string) :
  (List.length (Route.buildDomainsToCheck false normalizedQ searchLabel tlds)
   <= 25)%nat
  /\ Forall (fun d => exists t, In t tlds /\ d = searchLabel +:+ "." +:+ t)
       (Route.buildDomainsToCheck false normalizedQ searchLabel tlds)
  /\ Route.buildDomainsToCheck false normalizedQ searchLabel tlds
     = map (fun t => searchLabel +:+ "." +:+ t)
         (firstn 25
            (List.filter (arrayIncludes tlds) Route.COMMON
             ++ List.filter (fun t => negb (arrayIncludes Route.COMMON t))
                  tlds)).
Proof.
  unfold Route.buildDomainsToCheck. cbv zeta.
  rewrite pickCandidateTlds_unsliced, arraySlice0_nonneg by lia.
  change (Z.to_nat 25) with 25%nat.
  split; [|split; [|reflexivity]].
  - rewrite length_map. apply firstn_le_length.
  - apply List.Forall_forall. intros d Hin.
    apply in_map_iff in Hin as (t & <- & Hin). exists t. split; [|reflexivity].
    apply In_candidates.
    rewrite <- (firstn_skipn 25 (_ ++ _)). apply in_or_app. now left.
Qed.

End TldMore.

Module TldCacheFacts.
Import JS Re Json Async Log Reading.
Import StringFacts RouteFacts.

(** A fresh snapshot is returned as it is, with no registrar call and
    whatever the team identifier of the request: the snapshot is shared by
    all teams. Only the clock is read. *)
Theorem getSupportedTlds_fresh_snapshot
    (P : Providers) (t : option string) (tlds : list string) (ts : Z)
    (w : World) :
  tldsCache w = Some (tlds, ts) ->
  clock P (ticks w) - ts < Route.TLDS_CACHE_TTL ->
  Route.getSupportedTlds P t w
  = (Resolved tlds,
     {| labelCache := labelCache w; tldsCache := tldsCache w;
        ticks := S (ticks w); calls := calls w |}).
Proof.
  intros Hc Hfresh. unfold Route.getSupportedTlds. run_async. cbn.
  rewrite Hc. apply Z.ltb_lt in Hfresh. now rewrite Hfresh.
Qed.

Lemma getSupportedTlds_fresh_snapshot_witness :
  Route.getSupportedTlds (Sample.answering "brand" ["io"])
    (Some "team_a")
    {| labelCache := ∅; tldsCache := Some (["com"; "dev"], 500);
       ticks := 3; calls := [] |}
  = (Resolved ["com"; "dev"],
     {| labelCache := ∅; tldsCache := Some (["com"; "dev"], 500);
        ticks := 4; calls := [] |}).
Proof.
  apply (getSupportedTlds_fresh_snapshot (Sample.answering "brand" ["io"])
           (Some "team_a") ["com"; "dev"] 500
           {| labelCache := ∅; tldsCache := Some (["com"; "dev"], 500);
              ticks := 3; calls := [] |});
    [reflexivity | vm_compute; reflexivity].
Defined.

Lemma getSupportedTlds_miss
    (P : Providers) (t : option string) (w : World) :
  tldsMiss w (clock P (ticks w)) ->
  Route.getSupportedTlds P t w
  = Route.fetchSupportedTlds P t
      {| labelCache := labelCache w; tldsCache := tldsCache w;
         ticks := S (ticks w); calls := calls w |}.
Proof.
  intros Hmiss. unfold Route.getSupportedTlds, tldsMiss in *. run_async. cbn.
  destruct (tldsCache w) as [[tlds ts]|]; [|reflexivity].
  now rewrite Hmiss.
Qed.

(** Without a fresh snapshot the registrar is asked once. When it answers,
    the list (one leading dot stripped per entry, empty entries dropped)
    is returned and stored with the time read after the answer; a second
    request, of any team, made while the clock is within five minutes of
    that time is served from the snapshot without another call. *)
Theorem getSupportedTlds_fetch_then_reuse
    (P : Providers) (t t' : option string) (supported : supportedTlds)
    (w : World) :
  tldsMiss w (clock P (ticks w)) ->
  sdkGetSupportedTlds P t = Resolved supported ->
  clock P (S (S (ticks w))) - clock P (S (ticks w)) < Route.TLDS_CACHE_TTL ->
  let first := Route.getSupportedTlds P t w in
  let second := Route.getSupportedTlds P t' (snd first) in
  fst first = Resolved (Route.tldsOf supported)
  /\ calls (snd first) = calls w ++ [CallGetSupportedTlds t]
  /\ tldsCache (snd first)
     = Some (Route.tldsOf supported, clock P (S (ticks w)))
  /\ fst second = Resolved (Route.tldsOf supported)
  /\ calls (snd second) = calls (snd first).
Proof.
  intros Hmiss Hsdk Hfresh. cbv zeta.
  rewrite (getSupportedTlds_miss P t w Hmiss).
  unfold Route.fetchSupportedTlds. run_async. cbn. rewrite Hsdk. cbn.
  repeat split.
  all: erewrite getSupportedTlds_fresh_snapshot; cbn; try reflexivity;
    exact Hfresh.
Qed.

Lemma getSupportedTlds_fetch_then_reuse_witness :
  tldsMiss Sample.emptyWorld 0
  /\ fst (Route.getSupportedTlds (Sample.answering "brand" [".io"; ""; "com"])
            (Some "team_b")
            (snd (Route.getSupportedTlds
                    (Sample.answering "brand" [".io"; ""; "com"])
                    None Sample.emptyWorld)))
     = Resolved ["io"; "com"].
Proof.
  split; [exact I|].
  apply (getSupportedTlds_fetch_then_reuse
           (Sample.answering "brand" [".io"; ""; "com"]) None (Some "team_b")
           (TldArray [".io"; ""; "com"]) Sample.emptyWorld);
    [exact I | reflexivity | vm_compute; reflexivity].
Defined.

(** When the registrar rejects the request, the rejection is passed on
    with its message and the snapshot is left as it was: an expired
    snapshot is not served in its place, and the next request asks again. *)
Theorem getSupportedTlds_rejection_keeps_snapshot
    (P : Providers) (t : option string) (m : string) (w : World) :
  tldsMiss w (clock P (ticks w)) ->
  sdkGetSupportedTlds P t = Rejected m ->
  Route.getSupportedTlds P t w
  = (Rejected m,
     {| labelCache := labelCache w; tldsCache := tldsCache w;
        ticks := S (ticks w);
        calls := calls w ++ [CallGetSupportedTlds t] |}).
Proof.
  intros Hmiss Hsdk.
  rewrite (getSupportedTlds_miss P t w Hmiss).
  unfold Route.fetchSupportedTlds. run_async. cbn. now rewrite Hsdk.
Qed.

Lemma getSupportedTlds_rejection_keeps_snapshot_witness :
  tldsMiss
    {| labelCache := ∅; tldsCache := Some (["com"], 0);
       ticks := 400; calls := [] |}
    (clock (tldsDown "registrar unavailable") 400)
  /\ Route.getSupportedTlds (tldsDown "registrar unavailable") None
       {| labelCache := ∅; tldsCache := Some (["com"], 0);
          ticks := 400; calls := [] |}
     = (Rejected "registrar unavailable",
        {| labelCache := ∅; tldsCache := Some (["com"], 0);
           ticks := 401; calls := [CallGetSupportedTlds None] |}).
Proof.
  split; [vm_compute; reflexivity|].
  apply (getSupportedTlds_rejection_keeps_snapshot
           (tldsDown "registrar unavailable") None "registrar unavailable"
           {| labelCache := ∅; tldsCache := Some (["com"], 0);
              ticks := 400; calls := [] |});
    [vm_compute; reflexivity | reflexivity].
Defined.

Lemma tldsOf_nonempty (supported : supportedTlds) :
  Forall (fun t => t <> ""%string) (Route.tldsOf supported).
Proof.
  destruct supported as [l|]; [|constructor].
  apply List.Forall_forall. intros t [_ Ht]%filter_In ->. discriminate.
Qed.

(** The snapshot never holds an empty TLD, and no empty TLD is ever
    handed to the candidate builder: if the snapshot is clean before a
    call of [getSupportedTlds], the list returned and the snapshot after
    the call are clean too, whatever the registrar answers. *)
Theorem getSupportedTlds_keeps_snapshot_clean
    (P : Providers) (t : option string) (w : World) :
  tldsClean w ->
  match Route.getSupportedTlds P t w with
  | (Resolved tlds, w') =>
      Forall (fun t => t <> ""%string) tlds /\ tldsClean w'
  | (Rejected _, w') => tldsClean w'
  end.
Proof.
  unfold Route.getSupportedTlds, Route.fetchSupportedTlds, tldsClean.
  run_async. cbn.
  destruct (tldsCache w) as [[tlds ts]|]; cbn; intros Hclean.
  - destruct (_ <? _); cbn; [auto|].
    destruct (sdkGetSupportedTlds P t); cbn; auto using tldsOf_nonempty.
  - destruct (sdkGetSupportedTlds P t); cbn; auto using tldsOf_nonempty.
Qed.

Lemma getSupportedTlds_keeps_snapshot_clean_witness :
  tldsClean Sample.emptyWorld
  /\ Forall (fun t => t <> ""%string)
       (Route.tldsOf (TldArray ["."; ".io"; ""; "com"])).
Proof.
  split; [exact I|].
  exact (proj1 (getSupportedTlds_keeps_snapshot_clean
                  (Sample.answering "brand" ["."; ".io"; ""; "com"])
                  None Sample.emptyWorld I)).
Defined.

End TldCacheFacts.

(* ===================================================================== *)
(** * More on the label synthesizer                                       *)
(* ===================================================================== *)

Module LabelMore.
Import JS Re Json Async Log Reading.
Import StringFacts RouteFacts LabelFacts.

(** An entry of the label cache that is ten minutes old or older is not
    used: the text generation is asked again, the entry of the raw query
    is replaced by the new label with the new time, and the entries of
    other queries are left alone. *)
Theorem label_entry_expires
    (P : Providers) (oq nq fb old : string) (ts : Z) (w : World) :
  test_WHITESPACE_RE oq = true ->
  labelCache w !! oq = Some (old, ts) ->
  Route.LABEL_CACHE_TTL <= clock P (ticks w) - ts ->
  let r := Route.getSearchLabelFromQuery P oq nq fb w in
  fst r = Resolved (synthesized P oq nq fb)
  /\ labelCache (snd r) !! oq
     = Some (synthesized P oq nq fb, clock P (ticks w))
  /\ calls (snd r) = calls w ++ [CallGenerateText (Route.promptOf oq)]
  /\ forall k, k <> oq -> labelCache (snd r) !! k = labelCache w !! k.
Proof.
  intros Hmw Hc Hold. cbv zeta.
  rewrite (getSearchLabelFromQuery_miss P oq nq fb w Hmw).
  - cbn. split; [reflexivity|]. split; [apply lookup_insert_eq|].
    split; [reflexivity|]. intros k Hk. now apply lookup_insert_ne.
  - unfold labelMiss. rewrite Hc. apply Z.ltb_ge. exact Hold.
Qed.

Lemma label_entry_expires_witness :
  test_WHITESPACE_RE "my idea" = true
  /\ fst (Route.getSearchLabelFromQuery
            (Sample.answering "Bright Idea" ["com"]) "my idea" "my idea" ""
            {| labelCache := {[ "my idea"%string := ("stale"%string, 0) ]};
               tldsCache := None; ticks := 700; calls := [] |})
     = Resolved "brightidea".
Proof.
  split; [reflexivity|].
  apply (label_entry_expires (Sample.answering "Bright Idea" ["com"])
           "my idea" "my idea" "" "stale" 0
           {| labelCache := {[ "my idea"%string := ("stale"%string, 0) ]};
              tldsCache := None; ticks := 700; calls := [] |});
    [reflexivity | apply lookup_singleton_eq | vm_compute; discriminate].
Defined.

(** The label the synthesizer settles on is either the fallback, or a
    label made from a generated title, and then it is not empty and it is
    a valid label: the title is cut to 30 characters before it is
    sanitized, so the cut to 63 characters never applies. *)
Theorem synthesized_label_valid_or_fallback
    (P : Providers) (oq nq fb : string) :
  synthesized P oq nq fb = Route.fallbackLabelOf nq fb
  \/ (exists title,
        generateText P (Route.promptOf oq) = Resolved title
        /\ synthesized P oq nq fb
           = Route.domainLabelFromTitle (Route.finalTitleOf title))
     /\ synthesized P oq nq fb <> ""%string
     /\ Spec.validLabel (chars (synthesized P oq nq fb)).
Proof.
  unfold synthesized.
  destruct (generateText P (Route.promptOf oq)) as [title|m]; [|now left].
  cbv zeta.
  destruct (JS.truthy (Route.domainLabelFromTitle (Route.finalTitleOf title)))
    eqn:Ht; [|now left].
  right. split; [now exists title|]. split.
  - intros E. rewrite E in Ht. discriminate.
  - apply generated_label_valid.
Qed.

(** The hypotheses of [repeated_query_generates_once] hold for a first
    search of "my cool idea". *)
Lemma repeated_query_generates_once_witness :
  test_WHITESPACE_RE "my cool idea" = true
  /\ labelMiss Sample.emptyWorld "my cool idea" 0
  /\ fst (Route.getSearchLabelFromQuery
            (Sample.answering "My Cool Idea!!" ["com"])
            "my cool idea" "my cool idea" ""
            (snd (Route.getSearchLabelFromQuery
                    (Sample.answering "My Cool Idea!!" ["com"])
                    "my cool idea" "my cool idea" "" Sample.emptyWorld)))
     = fst (Route.getSearchLabelFromQuery
              (Sample.answering "My Cool Idea!!" ["com"])
              "my cool idea" "my cool idea" "" Sample.emptyWorld).
Proof.
  split; [reflexivity|]. split; [exact I|].
  apply (repeated_query_generates_once
           (Sample.answering "My Cool Idea!!" ["com"])
           "my cool idea" "my cool idea" "" Sample.emptyWorld);
    [reflexivity | exact I | vm_compute; reflexivity].
Defined.

(** The hypothesis of [domainLabelFromTitle_idempotent_unless_cut] holds
    for a title of ordinary length. *)
Lemma domainLabelFromTitle_idempotent_unless_cut_witness :
  headAvoids isHyphen
    (rev (chars (Route.domainLabelFromTitle " -My Cool- Idea!!- ")))
  /\ Route.domainLabelFromTitle
       (Route.domainLabelFromTitle " -My Cool- Idea!!- ")
     = Route.domainLabelFromTitle " -My Cool- Idea!!- ".
Proof.
  split; [vm_compute; reflexivity|].
  apply (domainLabelFromTitle_idempotent_unless_cut " -My Cool- Idea!!- ").
  vm_compute. reflexivity.
Defined.

End LabelMore.

(* ===================================================================== *)
(** * More on the request handler                                         *)
(* ===================================================================== *)

Module HandlerFacts.
Import JS Re Json Async Log Reading.
Import StringFacts RouteFacts LabelFacts.

(** Whatever the request and the collaborators, [POST] makes its calls in
    one order and at most once each: first the text generation, then the
    supported-TLD request, then the bulk-availability request, the two
    registrar calls carrying the team identifier read off the body. *)
Theorem POST_call_discipline
    (P : Providers) (request : option value) (w : World) :
  let body := match request with Some v => v | None => Obj [] end in
  let q := Route.queryOf (get body "q") in
  let t := Route.teamIdOf (get body "teamId") in
  exists resp w' gen tcall bcall,
    Route.POST P request w = (Resolved resp, w')
    /\ calls w' = calls w ++ gen ++ tcall ++ bcall
    /\ (gen = [] \/ gen = [CallGenerateText (Route.promptOf q)])
    /\ (tcall = [] \/ tcall = [CallGetSupportedTlds t])
    /\ (bcall = [] \/ exists ds, bcall = [CallGetBulkAvailability t ds]).
Proof.
  cbv zeta.
  set (body := match request with Some v => v | None => Obj [] end).
  destruct (nullish body) eqn:Hn.
  { do 2 eexists. exists [], [], [].
    split; [apply (proj1 (POST_early P request w)); exact Hn|].
    rewrite !app_nil_r. auto. }
  destruct (JS.truthy (Route.queryOf (get body "q"))) eqn:Hq; cycle 1.
  { do 2 eexists. exists [], [], [].
    split; [apply (proj2 (POST_early P request w)); assumption|].
    rewrite !app_nil_r. auto. }
  subst body.
  destruct (POST_search P request w Hn Hq)
    as (label & gen & w' & Hgen & [(m & Hr & E & Hc)|(tlds & tcall & Ht & Hc & E)]).
  - do 2 eexists. exists gen, [CallGetSupportedTlds
      (Route.teamIdOf (get match request with
                           | Some v => v | None => Obj [] end "teamId"))], [].
    split; [exact E|]. rewrite app_nil_r. auto.
  - destruct (sdkGetBulkAvailability P _ _).
    all: do 2 eexists; exists gen, tcall; eexists;
      split; [exact E|]; split; [exact Hc|]; split; [exact Hgen|];
      split; [tauto | right; eauto].
Qed.

(** The handler of a non-empty query, step by step. *)
Lemma POST_steps (P : Providers) (request : option value) (w : World) :
  let body := match request with Some v => v | None => Obj [] end in
  let q := Route.queryOf (get body "q") in
  let t := Route.teamIdOf (get body "teamId") in
  let nq := replace_LEADING_DOT_RE q in
  nullish body = false ->
  JS.truthy q = true ->
  Route.POST P request w =
    match Route.getSearchLabelFromQuery P q nq "" w with
    | (Resolved label, w1) =>
        match Route.getSupportedTlds P t w1 with
        | (Resolved tlds, w2) =>
            match Route.bulkAvailability P t
                    (Route.buildDomainsToCheck (Route.looksLikeDomain q)
                       nq label tlds) w2 with
            | (Resolved v, w3) =>
                (Resolved (Route.ok (Route.domainsBody v)), w3)
            | (Rejected m, w3) =>
                (Resolved {| status := 500; body := Route.errorBody m |}, w3)
            end
        | (Rejected m, w2) =>
            (Resolved {| status := 500; body := Route.errorBody m |}, w2)
        end
    | (Rejected m, w1) =>
        (Resolved {| status := 500; body := Route.errorBody m |}, w1)
    end.
Proof.
  cbv zeta. intros Hn Hq.
  unfold Route.POST, Route.handle. run_async.
  rewrite readProp_run, Hn. cbn beta iota.
  rewrite readProp_run, Hn. cbn beta iota. rewrite Hq. cbn [negb].
  destruct (Route.getSearchLabelFromQuery P _ _ "" w) as [[label|m] w1];
    [|reflexivity].
  destruct (Route.getSupportedTlds P _ w1) as [[tlds|m] w2]; [|reflexivity].
  destruct (Route.bulkAvailability P _ _ w2) as [[v|m] w3]; reflexivity.
Qed.

(** A query without white space never reaches the text generation: no
    generation call is made and the label cache is left as it was; the
    query itself (one leading dot stripped) is the label of every
    candidate. *)
Theorem single_word_query_skips_generation
    (P : Providers) (request : option value) (w : World) :
  test_WHITESPACE_RE
    (Route.queryOf
       (get match request with Some v => v | None => Obj [] end "q"))
  = false ->
  let body := match request with Some v => v | None => Obj [] end in
  let q := Route.queryOf (get body "q") in
  let nq := replace_LEADING_DOT_RE q in
  exists resp w' new,
    Route.POST P request w = (Resolved resp, w')
    /\ calls w' = calls w ++ new
    /\ generateCalls new = []
    /\ labelCache w' = labelCache w
    /\ (bulkRequests new = []
        \/ exists tlds,
             bulkRequests new
             = [Route.buildDomainsToCheck (Route.looksLikeDomain q)
                  nq nq tlds]).
Proof.
  intros Hsw. cbv zeta.
  set (body := match request with Some v => v | None => Obj [] end) in *.
  destruct (nullish body) eqn:Hn.
  { do 2 eexists. exists [].
    split; [apply (proj1 (POST_early P request w)); exact Hn|].
    rewrite app_nil_r. auto. }
  destruct (JS.truthy (Route.queryOf (get body "q"))) eqn:Hq; cycle 1.
  { do 2 eexists. exists [].
    split; [apply (proj2 (POST_early P request w)); assumption|].
    rewrite app_nil_r. auto. }
  subst body. rewrite (POST_steps P request w Hn Hq).
  rewrite (single_word_label P _ _ "" w Hsw).
  assert (Hlc : forall t w1 r w2,
            Route.getSupportedTlds P t w1 = (r, w2) ->
            labelCache w2 = labelCache w1).
  { intros t w1 r w2. unfold Route.getSupportedTlds, Route.fetchSupportedTlds.
    run_async. cbn.
    destruct (tldsCache w1) as [[tl ts]|]; [destruct (_ <? _)|];
      try destruct (sdkGetSupportedTlds P t); cbn; now intros [= <- <-]. }
  destruct (getSupportedTlds_run P
              (Route.teamIdOf (get match request with
                                   | Some v => v | None => Obj [] end "teamId"))
              w)
    as [(tlds & w2 & E2 & Hc2)|(m & w2 & E2 & Hc2 & Hr)]; rewrite E2.
  - rewrite bulkAvailability_run. pose proof (Hlc _ _ _ _ E2) as Hl.
    destruct (sdkGetBulkAvailability P _ _).
    all: destruct Hc2 as [Hc2|[Hc2 _]].
    all: do 3 eexists; split; [reflexivity|]; split;
      [cbn; rewrite Hc2, <- ?app_assoc; reflexivity|].
    all: cbn; repeat split; eauto.
  - do 3 eexists. split; [reflexivity|]. split; [exact Hc2|].
    pose proof (Hlc _ _ _ _ E2) as Hl. cbn. repeat split; eauto.
Qed.

Lemma single_word_query_skips_generation_witness :
  test_WHITESPACE_RE (Route.queryOf (Str " Startup ")) = false
  /\ exists resp w' new,
       Route.POST (Sample.generationDown "gateway timeout" ["io"; "com"])
         (Some (Obj [("q", Str " Startup ")])) Sample.emptyWorld
       = (Resolved resp, w')
       /\ calls w' = calls Sample.emptyWorld ++ new
       /\ generateCalls new = []
       /\ labelCache w' = labelCache Sample.emptyWorld
       /\ (bulkRequests new = []
           \/ exists tlds,
                bulkRequests new
                = [Route.buildDomainsToCheck
                     (Route.looksLikeDomain (Route.queryOf (Str " Startup ")))
                     (replace_LEADING_DOT_RE (Route.queryOf (Str " Startup ")))
                     (replace_LEADING_DOT_RE (Route.queryOf (Str " Startup ")))
                     tlds]).
Proof.
  split; [reflexivity|].
  apply (single_word_query_skips_generation
           (Sample.generationDown "gateway timeout" ["io"; "com"])
           (Some (Obj [("q", Str " Startup ")])) Sample.emptyWorld).
  reflexivity.
Defined.

(** Every answer of [POST] has one of three shapes: status 500 with an
    [{ error }] body; status 200 with [{ domains: [] }] and no call made
    (the query was empty); or status 200 with [{ domains: v }] where [v]
    is, unchanged, what the registrar returned for the bulk-availability
    request, which is the last call made. *)
Theorem POST_response_shapes
    (P : Providers) (request : option value) (w : World) :
  exists resp w',
    Route.POST P request w = (Resolved resp, w')
    /\ ((status resp = 500 /\ exists m, body resp = Route.errorBody m)
        \/ (status resp = 200
            /\ body resp = Route.domainsBody (Arr []) /\ w' = w)
        \/ (status resp = 200
            /\ exists t ds v,
                 sdkGetBulkAvailability P t ds = Resolved v
                 /\ body resp = Route.domainsBody v
                 /\ List.last (calls w') (CallGetSupportedTlds None)
                    = CallGetBulkAvailability t ds)).
Proof.
  set (body := match request with Some v => v | None => Obj [] end).
  destruct (nullish body) eqn:Hn.
  { do 2 eexists. split; [apply (proj1 (POST_early P request w)); exact Hn|].
    left. cbn. eauto. }
  destruct (JS.truthy (Route.queryOf (get body "q"))) eqn:Hq; cycle 1.
  { do 2 eexists.
    split; [apply (proj2 (POST_early P request w)); assumption|].
    right. left. cbn. auto. }
  subst body.
  destruct (POST_search P request w Hn Hq)
    as (label & gen & w' & Hgen & [(m & Hr & E & Hc)|(tlds & tcall & Ht & Hc & E)]).
  - do 2 eexists. split; [exact E|]. left. cbn. eauto.
  - destruct (sdkGetBulkAvailability P _ _) as [v|m] eqn:Hb.
    + do 2 eexists. split; [exact E|]. right. right. cbn.
      split; [reflexivity|]. do 3 eexists. split; [exact Hb|].
      split; [reflexivity|].
      rewrite Hc, !app_assoc. apply last_last.
    + do 2 eexists. split; [exact E|]. left. cbn. eauto.
Qed.

(** How the handler reads the body: a body that does not parse, and a
    body that is a number, a boolean, a string or an array, are taken as
    a request without query and answered [{ domains: [] }]; the body
    [null] makes the read of [body.q] throw, which the handler answers
    with status 500. In neither case is a collaborator called. *)
Theorem POST_body_that_is_no_object (P : Providers) (w : World) :
  Route.POST P None w
    = (Resolved (Route.ok (Route.domainsBody (Arr []))), w)
  /\ (forall b, Route.POST P (Some (Bool b)) w
        = (Resolved (Route.ok (Route.domainsBody (Arr []))), w))
  /\ (forall n, Route.POST P (Some (Num n)) w
        = (Resolved (Route.ok (Route.domainsBody (Arr []))), w))
  /\ (forall s, Route.POST P (Some (Str s)) w
        = (Resolved (Route.ok (Route.domainsBody (Arr []))), w))
  /\ (forall l, Route.POST P (Some (Arr l)) w
        = (Resolved (Route.ok (Route.domainsBody (Arr []))), w))
  /\ (exists m,
        Route.POST P (Some Null) w
        = (Resolved {| status := 500; body := Route.errorBody m |}, w)
        /\ RoutePlain.POST P (Some Null) w
        = (Resolved {| status := 500; body := Route.errorBody m |}, w)).
Proof.
  repeat split; try (intros; now apply (proj2 (POST_early P _ w))).
  eexists. split.
  - now apply (proj1 (POST_early P (Some Null) w)).
  - now apply (proj1 (PlainPOST_early P (Some Null) w)).
Qed.

End HandlerFacts.

(* ===================================================================== *)
(** * Upstream failures                                                    *)
(* ===================================================================== *)

Module FailureFacts.
Import JS Re Json Async Log Reading.
Import StringFacts RouteFacts TldCacheFacts.






End FailureFacts.

(* ===================================================================== *)
(** * More on the search coordinator                                      *)
(* ===================================================================== *)

Module PageMore.
Import JS Json Page Reading.
Import StringFacts PageFacts.

(** Every body the route can answer with for a list of results is decoded
    by the client to that list: the bare list, [{ results }],
    [{ domains }] and [{ domains: { results } }]. *)
Theorem client_decodes_every_list_shape (l : list value) :
  normalizeDomainPayload (payloadOf (Arr l)) = l
  /\ normalizeDomainPayload (payloadOf (Obj [("results", Arr l)])) = l
  /\ normalizeDomainPayload (payloadOf (Route.domainsBody (Arr l))) = l
  /\ normalizeDomainPayload
       (payloadOf (Route.domainsBody (Obj [("results", Arr l)]))) = l
  /\ decoded (Responded (Route.domainsBody (Arr l))) = l.
Proof. repeat split. Qed.

(** When the debounce timer fires and the cache holds an entry for the
    query that is less than two minutes old, the cached results are
    displayed at once, loading stops, the URL takes the query, and no
    request is sent; the controller of the search before is aborted all
    the same. *)
Theorem cache_hit_renders_without_request
    (h : Home) (id : nat) (v : string) (now ts : Z) (r : list value) :
  findById id (timers h) = Some v ->
  searchCacheRef h !! v = Some (r, ts) ->
  now - ts < SEARCH_CACHE_TTL ->
  exists h',
    step h (TimerFires id now) = Some h'
    /\ results h' = r
    /\ loading h' = false
    /\ urlQ h' = (if JS.truthy v then Some v else None)
    /\ sent h' = sent h
    /\ inflight h' = inflight h
    /\ searchCacheRef h' = searchCacheRef h
    /\ (forall c, fetchAbortRef h = Some c -> c ∈ aborted h').
Proof.
  intros Hf Hc Hfresh. cbn. rewrite Hf. cbn. eexists. split; [reflexivity|].
  apply Z.ltb_lt in Hfresh.
  unfold debounceCallback, runSearchStart, getCachedSearch, updateUrl.
  destruct h as [q0 res ld cache dref [c0|] url tm ab infl fr snt rq]; cbn in *.
  all: rewrite Hc, Hfresh; destruct (JS.truthy v); cbn; repeat split.
  all: try discriminate.
  all: intros c [= <-]; apply elem_of_union; left;
    now apply elem_of_singleton.
Qed.

Lemma cache_hit_renders_without_request_witness :
  findById 4 (timers dogsCached) = Some "dogs"%string
  /\ exists h',
       step dogsCached (TimerFires 4 60000) = Some h'
       /\ results h' = [Str "dogs.com"]
       /\ sent h' = ["dogs"%string].
Proof.
  split; [reflexivity|].
  destruct (cache_hit_renders_without_request
              dogsCached 4 "dogs" 60000 1000 [Str "dogs.com"]
              eq_refl (lookup_singleton_eq _ _) eq_refl)
    as (h' & Hs & Hr & _ & _ & Hsent & _).
  exists h'. auto.
Defined.



(** When a request that was not aborted ends, what it decodes to (the
    empty list when the request failed) is displayed, loading stops, the
    URL takes its query, and the result is stored under the query with
    the time of the end: for two minutes from then a search for the same
    query finds it in the cache. *)
Theorem settled_result_is_cached
    (h : Home) (c : nat) (v : string) (e : fetchEnd) (now : Z) :
  findById c (inflight h) = Some v ->
  c ∉ aborted h ->
  exists h',
    step h (Settle c e now) = Some h'
    /\ results h' = decoded e
    /\ loading h' = false
    /\ urlQ h' = (if JS.truthy v then Some v else None)
    /\ (fetchAbortRef h = Some c -> fetchAbortRef h' = None)
    /\ (forall later, later - now < SEARCH_CACHE_TTL ->
          getCachedSearch v later h' = Some (decoded e)).
Proof.
  intros Hf Ha. cbn. rewrite Hf. cbn. eexists. split; [reflexivity|].
  unfold fetchDomains. rewrite (bool_decide_eq_false_2 _ Ha).
  fold (decoded e).
  unfold runSearchResume, updateUrl, getCachedSearch. cbv zeta.
  destruct h as [q0 res ld cache dref fref url tm ab infl fr snt rq]; cbn.
  destruct (bool_decide (fref = Some c)) eqn:Hb; cbn;
    destruct (JS.truthy v); cbn; repeat split.
  all: try (intros ->; now rewrite bool_decide_eq_true_2 in Hb).
  all: intros later Hl; rewrite lookup_insert_eq;
    apply Z.ltb_lt in Hl; now rewrite Hl.
Qed.

Lemma settled_result_is_cached_witness :
  (1%nat ∉ aborted catsInFlight)
  /\ exists h',
       step catsInFlight (Settle 1 Failed 1900) = Some h'
       /\ results h' = []
       /\ getCachedSearch "cats" 100000 h' = Some [].
Proof.
  assert (Ha : 1%nat ∉ aborted catsInFlight) by apply not_elem_of_empty.
  split; [exact Ha|].
  destruct (settled_result_is_cached catsInFlight 1 "cats" Failed 1900
              eq_refl Ha)
    as (h' & Hs & Hr & _ & _ & _ & Hc).
  exists h'. split; [exact Hs|]. split; [exact Hr|].
  apply Hc. reflexivity.
Defined.

End PageMore.

Module PageInvariants.
Import JS Json Page Reading Render.
Import StringFacts PageFacts.

Lemma In_snd_filter (f : nat * string -> bool) (l : list (nat * string))
    (x : string) :
  In x (map snd (List.filter f l)) -> In x (map snd l).
Proof.
  intros ((i & v) & <- & Hin)%in_map_iff. apply filter_In in Hin as [Hin _].
  apply in_map_iff. now exists (i, v).
Qed.

Ltac split_queries H :=
  unfold allQueries in H; cbn in H;
  repeat (rewrite ?map_app, ?in_app_iff in H; cbn in H).

Ltac close_queries :=
  unfold allQueries; cbn; rewrite ?in_app_iff;
  intuition (subst; eauto using In_snd_filter).

Lemma flushEffect_queries (h : Home) (x : string) :
  In x (allQueries (flushEffect h)) ->
  In x (allQueries h) \/ x <> ""%string.
Proof.
  unfold flushEffect, runEffect. destruct (effectDue h); [|now left].
  unfold debounceEffect, cancelPending, clearTimeout.
  destruct h as [[|a q0] res ld cache [id|] [c|] url tm ab infl fr snt rq];
    cbn; intros Hin; split_queries Hin.
  all: try (left; close_queries; fail).
  all: destruct Hin as [[Hin|[<-|[]]]|Hin];
    try (left; close_queries; fail).
  all: right; discriminate.
Qed.

(** A step adds no query to the timers, the requests in flight and the
    requests sent, other than a non-empty one. *)
Lemma step_queries (h h' : Home) (ev : Event) (x : string) :
  step h ev = Some h' ->
  In x (allQueries h') ->
  In x (allQueries h) \/ x <> ""%string.
Proof.
  destruct ev as [v| |id now|c e now|]; cbn.
  - intros [= <-]. unfold change. exact (flushEffect_queries (setQ v h) x).
  - intros [= <-]. unfold onClear, cancelPending, clearTimeout.
    destruct h as [q0 res ld cache [id|] [c|] url tm ab infl fr snt rq];
      cbn; intros Hin; split_queries Hin; left; close_queries.
  - destruct (findById id (timers h)) as [v|] eqn:Hf; [|discriminate].
    cbn. intros [= <-]. apply findById_In in Hf.
    assert (Hv : In v (map snd (timers h))).
    { apply in_map_iff. now exists (id, v). }
    unfold debounceCallback, runSearchStart, updateUrl, getCachedSearch.
    destruct h as [q0 res ld cache dref [c|] url tm ab infl fr snt rq]; cbn in *.
    all: destruct (cache !! v) as [[r ts]|];
      [destruct (_ <? _); [destruct (JS.truthy v)|]|]; cbn;
      intros Hin; split_queries Hin; left; close_queries.
  - destruct (findById c (inflight h)) as [v|]; [|discriminate].
    cbn. intros [= <-]. unfold runSearchResume, updateUrl.
    destruct h as [q0 res ld cache dref fref url tm ab infl fr snt rq]; cbn.
    destruct (bool_decide (fref = Some c)); destruct (JS.truthy v); cbn;
      intros Hin; split_queries Hin; left; close_queries.
  - pose proof (flushEffect_queries h x) as H. unfold flushEffect in H.
    destruct (effectDue h); [|discriminate]. now intros [= <-].
Qed.

Lemma mount_queries (paramQ : option string) (x : string) :
  In x (allQueries (mount paramQ)) -> x <> ""%string.
Proof.
  destruct paramQ as [[|a v]|]; cbn; intros Hin; split_queries Hin;
    intuition (subst; discriminate).
Qed.

Lemma run_queries (evs : list Event) :
  forall h h',
    (forall x, In x (allQueries h) -> x <> ""%string) ->
    run h evs = Some h' ->
    forall x, In x (allQueries h') -> x <> ""%string.
Proof.
  induction evs as [|ev evs IH]; intros h h' Hinv; cbn.
  - now intros [= <-].
  - destruct (step h ev) as [h1|] eqn:E; [|discriminate]. cbn.
    apply IH. intros x Hin.
    destruct (step_queries h h1 ev x E Hin) as [H|H]; auto.
Qed.

(** The client never sends a request for the empty query: in every state
    the event loop reaches, however the page was mounted, every query of
    the log of requests sent is non-empty. *)
Theorem never_sends_empty_query (paramQ : option string) (h : Home) :
  reachable paramQ h ->
  Forall (fun v => v <> ""%string) (sent h).
Proof.
  intros [evs Hrun]. apply List.Forall_forall. intros x Hin.
  apply (run_queries evs (mount paramQ) h (mount_queries paramQ) Hrun).
  unfold allQueries. rewrite !in_app_iff. auto.
Qed.

Lemma never_sends_empty_query_witness :
  exists h,
    run (mount None) Sample.catsThenCatsAndDogs = Some h
    /\ Forall (fun v => v <> ""%string) (sent h).
Proof.
  destruct (run (mount None) Sample.catsThenCatsAndDogs) as [h|] eqn:E.
  - exists h. split; [reflexivity|].
    apply (never_sends_empty_query None h).
    now exists Sample.catsThenCatsAndDogs.
  - vm_compute in E. discriminate.
Defined.

Lemma mount_oneTimer (paramQ : option string) : oneTimer (mount paramQ).
Proof.
  unfold mount. cbv zeta.
  assert (H : oneTimer (debounceEffect "" (setUrlQ paramQ initial))).
  { apply debounceEffect_oneTimer. now left. }
  destruct paramQ as [v|]; [|exact H].
  apply (step_oneTimer _ _ (Change v) H). reflexivity.
Qed.

Lemma mount_oneLiveRequest (paramQ : option string) :
  oneLiveRequest (mount paramQ).
Proof.
  unfold mount. cbv zeta.
  assert (H : oneLiveRequest (debounceEffect "" (setUrlQ paramQ initial))).
  { apply debounceEffect_oneLiveRequest. intros c v []. }
  destruct paramQ as [v|]; [|exact H].
  apply (step_oneLiveRequest _ _ (Change v) H). reflexivity.
Qed.

(** Debounce and single flight: in every state the event loop reaches, at
    most one timer is pending, and of the requests in flight at most one,
    the one of the current controller, has not been aborted. *)
Theorem one_timer_one_live_request (paramQ : option string) (h : Home) :
  reachable paramQ h ->
  (timers h = [] \/ exists id v, timers h = [(id, v)])
  /\ forall c v c' v',
       In (c, v) (inflight h) -> In (c', v') (inflight h) ->
       c ∉ aborted h -> c' ∉ aborted h -> c = c'.
Proof.
  intros [evs Hrun].
  destruct (run_invariants evs (mount paramQ) h
              (mount_oneTimer paramQ) (mount_oneLiveRequest paramQ) Hrun)
    as [Ht Hl].
  split.
  - destruct Ht as [Ht|(id & v & Ht & _)]; eauto.
  - intros c v c' v' Hin Hin' Ha Ha'.
    destruct (Hl c v Hin) as [?|Hc]; [contradiction|].
    destruct (Hl c' v' Hin') as [?|Hc']; [contradiction|].
    congruence.
Qed.

Lemma one_timer_one_live_request_witness :
  exists h,
    run (mount None) Sample.catsThenCatsAndDogs = Some h
    /\ (timers h = [] \/ exists id v, timers h = [(id, v)]).
Proof.
  destruct (run (mount None) Sample.catsThenCatsAndDogs) as [h|] eqn:E.
  - exists h. split; [reflexivity|].
    apply (one_timer_one_live_request None h).
    now exists Sample.catsThenCatsAndDogs.
  - vm_compute in E. discriminate.
Defined.

(** ** While the query is empty *)









(** ** The views of a render *)




End PageInvariants.

(* ===================================================================== *)
(** * What the table shows, and the link to the marketplace                *)
(* ===================================================================== *)

Module RenderFacts.
Import JS Json Page Render Reading.
Import StringFacts RouteFacts.

(** ** [getStatus] *)

(** [getStatus] throws on exactly one row, [null]; on every other row it
    returns, and what it returns for a row that is no object or has
    neither an [available] flag nor a truthy [status] is the empty
    string. *)
Theorem getStatus_throws_exactly_on_null (item : value) :
  ((exists m, getStatus item = Rejected m) <-> item = Null)
  /\ (typeofObject item = false -> getStatus item = Resolved (Str ""))
  /\ (forall fields,
        item = Obj fields ->
        lookupField "available" fields = Undefined ->
        truthy (lookupField "status" fields) = false ->
        getStatus item = Resolved (Str "")).
Proof.
  split; [|split].
  - split.
    + intros [m H]. destruct item; try reflexivity; cbn in H;
        try discriminate.
      * destruct (lookupField _ _) as [| |[]| | | |];
          try destruct (truthy _); discriminate.
    + intros ->. eexists. reflexivity.
  - destruct item; cbn; congruence.
  - intros fields -> Ha Hs. cbn. now rewrite Ha, Hs.
Qed.

(** ** A failed search *)

Lemma POST_500_body
    (P : Providers) (request : option value) (w w' : World)
    (resp : Response) :
  Route.POST P request w = (Resolved resp, w') ->
  status resp = 500 ->
  exists m, body resp = Route.errorBody m.
Proof.
  intros E Hs.
  set (b := match request with Some v => v | None => Obj [] end).
  destruct (nullish b) eqn:Hn.
  { rewrite (proj1 (POST_early P request w) Hn) in E.
    injection E as <- _. cbn. eauto. }
  destruct (JS.truthy (Route.queryOf (get b "q"))) eqn:Hq; cycle 1.
  { rewrite (proj2 (POST_early P request w) Hn Hq) in E.
    injection E as <- _. cbn in Hs. discriminate. }
  subst b.
  destruct (POST_search P request w Hn Hq)
    as (label & gen & w1 & Hgen
        & [(m & Hr & E1 & Hc)|(tlds & tcall & Ht & Hc & E1)]).
  - rewrite E1 in E. injection E as <- _. cbn. eauto.
  - rewrite E1 in E.
    destruct (sdkGetBulkAvailability P _ _) as [v|m].
    + injection E as <- _. cbn in Hs. discriminate.
    + injection E as <- _. cbn. eauto.
Qed.

(** The page does not look at the status of the response: when [POST]
    answers 500, the client decodes the [{ error }] body to a list of one
    row, the body itself, which the table displays with the JSON text of
    the body as its domain and an empty status. *)
Theorem failed_search_shows_one_row
    (stringify : value -> value)
    (P : Providers) (request : option value) (w w' : World)
    (resp : Response) :
  Route.POST P request w = (Resolved resp, w') ->
  status resp = 500 ->
  exists m,
    decoded (Responded (body resp)) = [Route.errorBody m]
    /\ getDomainString stringify (Route.errorBody m)
       = stringify (Route.errorBody m)
    /\ getStatus (Route.errorBody m) = Resolved (Str "").
Proof.
  intros E Hs. destruct (POST_500_body P request w w' resp E Hs) as [m ->].
  exists m. repeat split.
Qed.

Lemma failed_search_shows_one_row_witness :
  exists resp w',
    Route.POST (Sample.bulkDown "rate limited" ["com"])
      (Some (Obj [("q", Str "cats")])) Sample.emptyWorld
    = (Resolved resp, w')
    /\ decoded (Responded (body resp))
       = [Route.errorBody "rate limited"].
Proof.
  destruct (Route.POST (Sample.bulkDown "rate limited" ["com"])
              (Some (Obj [("q", Str "cats")])) Sample.emptyWorld)
    as [[resp|m] w'] eqn:E; [|vm_compute in E; discriminate].
  exists resp, w'. split; [reflexivity|].
  destruct (failed_search_shows_one_row (fun v => v) _ _ _ _ _ E)
    as (m & Hd & _).
  - vm_compute in E. injection E as <- _. reflexivity.
  - rewrite Hd. vm_compute in E. injection E as <- _.
    vm_compute in Hd. injection Hd as <-. reflexivity.
Defined.

(** ** [vercelSearchUrl] *)

Lemma chars_append (s1 s2 : string) :
  chars (s1 +:+ s2) = chars s1 ++ chars s2.
Proof.
  unfold chars. induction s1 as [|c s1 IH]; [reflexivity|].
  change (String c s1 +:+ s2) with (String c (s1 +:+ s2)). cbn.
  now rewrite IH.
Qed.

Lemma hexDigit_unreserved (n : N) :
  (n < 16)%N -> isUnreserved (hexDigit n) = true.
Proof.
  intros H.
  assert (Hn : In n (map N.of_nat (seq 0 16))).
  { apply in_map_iff. exists (N.to_nat n). split; [lia|].
    apply in_seq. lia. }
  cbn in Hn. intuition (subst; reflexivity).
Qed.

Lemma percentByte_link (n : N) :
  (n < 256)%N -> forallb isLinkChar (percentByte n) = true.
Proof.
  intros H. unfold percentByte. cbn [forallb].
  assert (H1 : (n / 16 < 16)%N) by (apply N.Div0.div_lt_upper_bound; lia).
  assert (H2 : (n mod 16 < 16)%N) by (apply N.mod_lt; lia).
  unfold isLinkChar at 2 3.
  rewrite (hexDigit_unreserved _ H1), (hexDigit_unreserved _ H2).
  reflexivity.
Qed.

Lemma code_lt_256 (c : ascii) : (code c < 256)%N.
Proof. apply N_ascii_bounded. Qed.

Lemma encodeChar_link (c : ascii) : forallb isLinkChar (encodeChar c) = true.
Proof.
  unfold encodeChar. cbv zeta. pose proof (code_lt_256 c) as Hc.
  destruct (isUnreserved c) eqn:Hu.
  - cbn. unfold isLinkChar. now rewrite Hu.
  - destruct (N.ltb_spec (code c) 128).
    + apply percentByte_link. lia.
    + rewrite forallb_app.
      assert (code c / 64 < 4)%N
        by (apply N.Div0.div_lt_upper_bound; lia).
      assert (code c mod 64 < 64)%N by (apply N.mod_lt; lia).
      rewrite !percentByte_link by lia. reflexivity.
Qed.

Lemma encodeURIComponent_link (s : string) :
  forallb isLinkChar (chars (encodeURIComponent s)) = true.
Proof.
  unfold encodeURIComponent. rewrite chars_str.
  induction (chars s) as [|c l IH]; [reflexivity|].
  cbn [flat_map]. now rewrite forallb_app, encodeChar_link, IH.
Qed.

Lemma join_link (pieces : list string) :
  Forall (fun p => forallb isLinkChar (chars p) = true) pieces ->
  forallb isLinkChar (chars (join "+" pieces)) = true.
Proof.
  induction 1 as [|p rest Hp _ IH]; [reflexivity|].
  destruct rest as [|p' rest]; [exact Hp|].
  change (join "+" (p :: p' :: rest))
    with (p +:+ "+" +:+ join "+" (p' :: rest)).
  rewrite !chars_append, !forallb_app, Hp, IH. reflexivity.
Qed.

(** Whatever the query, the part of the link after [?q=] is made of
    letters, digits, the marks [- _ . ! ~ * ' ( )], the percent sign and
    the plus sign only: no white space and no [&], [#] or [=] of the query
    gets into the link unescaped. *)
Theorem link_is_url_safe (q : string) :
  forallb isLinkChar (chars (normalizedOf q)) = true
  /\ exists rest,
       vercelSearchUrl q = ("https://vercel.com/domains/search?q=" +:+ rest)
       /\ forallb (fun c => negb (isWhiteSpace c)) (chars rest) = true
       /\ includesChar rest "&" = false
       /\ includesChar rest "#" = false
       /\ includesChar rest "=" = false.
Proof.
  assert (H : forallb isLinkChar (chars (normalizedOf q)) = true).
  { unfold normalizedOf. apply join_link. apply Forall_map.
    apply Forall_forall. intros p _. apply encodeURIComponent_link. }
  split; [exact H|]. exists (normalizedOf q). split; [reflexivity|].
  rewrite forallb_forall in H.
  assert (Hnot : forall c, isLinkChar c = true ->
            isWhiteSpace c = false /\ c <> "&"%char /\ c <> "#"%char
            /\ c <> "="%char).
  { intros c. by_cases_on_char c. }
  split; [|repeat split].
  - apply forallb_forall. intros c Hc.
    now rewrite (proj1 (Hnot c (H c Hc))).
  - apply includesChar_false. intros Hc.
    destruct (Hnot _ (H _ Hc)) as (_ & H1 & H2 & H3). congruence.
  - apply includesChar_false. intros Hc.
    destruct (Hnot _ (H _ Hc)) as (_ & H1 & H2 & H3). congruence.
  - apply includesChar_false. intros Hc.
    destruct (Hnot _ (H _ Hc)) as (_ & H1 & H2 & H3). congruence.
Qed.

(** *** The words of the query *)

Lemma splitRuns_cons (b : bool) (l : list ascii) :
  exists p rest, splitRuns b l = p :: rest.
Proof.
  revert b. induction l as [|c l IH]; intros b; cbn; [eauto|].
  destruct (isWhiteSpace c).
  - destruct b; [apply IH|eauto].
  - destruct (IH false) as (p & rest & ->). eauto.
Qed.

Lemma splitRuns_no_whitespace (l : list ascii) :
  forall b,
    Forall (fun p => forallb (fun c => negb (isWhiteSpace c)) p = true)
      (splitRuns b l).
Proof.
  induction l as [|c l IH]; intros b; cbn; [repeat constructor|].
  destruct (isWhiteSpace c) eqn:Hc.
  - destruct b; [apply IH|]. constructor; [reflexivity|apply IH].
  - specialize (IH false). destruct (splitRuns false l) as [|p rest].
    + repeat constructor. cbn. now rewrite Hc.
    + inversion IH as [|? ? Hp Hrest]; subst. constructor; [|exact Hrest].
      cbn. now rewrite Hc, Hp.
Qed.

Lemma splitRuns_nonempty (l : list ascii) :
  endsClean l = true -> l <> [] ->
  Forall (fun p => p <> []) (splitRuns true l)
  /\ (headAvoids isWhiteSpace l ->
      Forall (fun p => p <> []) (splitRuns false l)).
Proof.
  induction l as [|c l IH]; intros He Hc0; [congruence|]. clear Hc0.
  assert (Hl : l <> [] -> Forall (fun p => p <> []) (splitRuns true l)
                /\ Forall (fun p => p <> []) (List.tl (splitRuns false l))).
  { intros Hne. assert (He' : endsClean l = true) by (now destruct l).
    destruct (IH He' Hne) as [H1 H2]. split; [exact H1|].
    destruct l as [|c' l']; [congruence|].
    cbn. destruct (isWhiteSpace c') eqn:Hc'.
    - cbn in H1. rewrite Hc' in H1. exact H1.
    - specialize (H2 Hc'). cbn in H2. rewrite Hc' in H2.
      destruct (splitRuns false l'); now inversion H2. }
  assert (Hclean : isWhiteSpace c = false ->
            forall b, Forall (fun p => p <> []) (splitRuns b (c :: l))).
  { intros Hc b. cbn. rewrite Hc.
    destruct l as [|c' l'] eqn:El; [repeat constructor; discriminate|].
    rewrite <- El in *.
    destruct Hl as [_ Ht]; [subst; discriminate|].
    destruct (splitRuns false l) as [|p rest];
      constructor; try discriminate; auto. }
  destruct (isWhiteSpace c) eqn:Hc.
  - assert (Hne : l <> []).
    { intros ->. cbn in He. rewrite Hc in He. discriminate. }
    split.
    + cbn. rewrite Hc. apply Hl, Hne.
    + cbn. congruence.
  - split; [apply Hclean; reflexivity|]. intros _. now apply Hclean.
Qed.

Lemma endsClean_of_rev (l : list ascii) :
  headAvoids isWhiteSpace (rev l) -> endsClean l = true.
Proof.
  destruct (rev l) as [|x r] eqn:E.
  - intros _. apply (f_equal (@rev _)) in E. rewrite rev_involutive in E.
    now subst.
  - cbn. intros Hx.
    apply (f_equal (@rev _)) in E. rewrite rev_involutive in E. subst l.
    cbn. clear -Hx. induction (rev r) as [|c l IH]; cbn.
    + now rewrite Hx.
    + destruct (l ++ [x]) eqn:El; [now destruct l|exact IH].
Qed.

Lemma trimChars_clean (l : list ascii) :
  endsClean (trimChars l) = true /\ headAvoids isWhiteSpace (trimChars l).
Proof.
  unfold trimChars. split.
  - apply endsClean_of_rev, dropWhileEnd_last.
  - destruct (dropWhileEnd_prefix isWhiteSpace (dropWhile isWhiteSpace l))
      as [suf Hsuf].
    pose proof (dropWhile_head isWhiteSpace l) as Hh.
    rewrite Hsuf in Hh.
    destruct (dropWhileEnd isWhiteSpace (dropWhile isWhiteSpace l));
      [exact I|exact Hh].
Qed.

(** *** The separators of the link *)

Lemma encodeChar_shape (c : ascii) :
  encodeChar c <> []
  /\ forallb (fun x => negb (isPlus x)) (encodeChar c) = true.
Proof.
  destruct c as [[] [] [] [] [] [] [] []]; vm_compute;
    split; (discriminate || reflexivity).
Qed.

Lemma encodeURIComponent_shape (s : string) :
  chars s <> [] ->
  chars (encodeURIComponent s) <> []
  /\ forallb (fun x => negb (isPlus x)) (chars (encodeURIComponent s)) = true.
Proof.
  unfold encodeURIComponent. rewrite chars_str. intros Hne. split.
  - destruct (chars s) as [|c l]; [congruence|]. cbn [flat_map].
    destruct (encodeChar_shape c) as [Hc _].
    destruct (encodeChar c); [congruence|discriminate].
  - clear Hne. induction (chars s) as [|c l IH]; [reflexivity|].
    cbn [flat_map]. rewrite forallb_app, IH.
    now rewrite (proj2 (encodeChar_shape c)).
Qed.

Lemma headAvoids_rev_app {A} (p : A -> bool) (l k : list A) :
  k <> [] -> headAvoids p (rev k) -> headAvoids p (rev (l ++ k)).
Proof.
  intros Hne Hk. rewrite rev_app_distr.
  destruct (rev k) as [|x r] eqn:E; [|exact Hk].
  apply (f_equal (@rev _)) in E. rewrite rev_involutive in E. now subst.
Qed.

Lemma noDoublePlus_app (l k : list ascii) :
  l <> [] -> headAvoids isPlus (rev l) ->
  noDoublePlus l = true -> noDoublePlus k = true ->
  noDoublePlus (l ++ k) = true.
Proof.
  induction l as [|c l IH]; [congruence|]. intros _ Hlast Hl Hk.
  destruct l as [|c' l'].
  - cbn in Hlast. cbn. destruct k as [|c' k']; [reflexivity|].
    rewrite Hlast. cbn. exact Hk.
  - change ((c :: c' :: l') ++ k) with (c :: (c' :: l') ++ k).
    cbn [noDoublePlus app] in *.
    apply andb_true_iff in Hl as [Hcc Hl]. rewrite Hcc. cbn.
    apply IH; try assumption; [discriminate|].
    change (c :: c' :: l') with ([c] ++ c' :: l') in Hlast.
    rewrite rev_app_distr in Hlast.
    destruct (rev (c' :: l')) as [|x r] eqn:E; [|exact Hlast].
    apply (f_equal (@rev _)) in E. rewrite rev_involutive in E.
    discriminate.
Qed.

Lemma word_wellSeparated (l : list ascii) :
  l <> [] -> forallb (fun x => negb (isPlus x)) l = true ->
  wellSeparated l /\ countPlus l = 0%nat.
Proof.
  intros Hne Hall.
  assert (Hno : forall x, negb (isPlus x) = true -> isPlus x = false)
    by (intros x; now destruct (isPlus x)).
  split; [split; [exact Hne|]; split; [|split]|].
  - exact (headAvoids_of_forallb _ _ l Hno Hall).
  - apply (headAvoids_of_forallb (fun x => negb (isPlus x))); [exact Hno|].
    now rewrite forallb_rev.
  - clear Hne. induction l as [|c l IH]; [reflexivity|].
    cbn in Hall. apply andb_true_iff in Hall as [Hc Hall].
    destruct l as [|c' l']; [reflexivity|].
    cbn [noDoublePlus]. rewrite (Hno c Hc). cbn. now apply IH.
  - unfold countPlus. clear Hne.
    induction l as [|c l IH]; [reflexivity|].
    cbn in Hall |- *. apply andb_true_iff in Hall as [Hc Hall].
    rewrite (Hno c Hc). now apply IH.
Qed.

Lemma glue_wellSeparated (a b : list ascii) :
  wellSeparated a -> wellSeparated b ->
  wellSeparated (a ++ "+"%char :: b)
  /\ countPlus (a ++ "+"%char :: b) = S (countPlus a + countPlus b).
Proof.
  intros (Ha & Hah & Hal & Had) (Hb & Hbh & Hbl & Hbd).
  split; [split; [|split; [|split]]|].
  - destruct a; discriminate.
  - destruct a; [congruence|exact Hah].
  - apply headAvoids_rev_app; [discriminate|].
    change ("+"%char :: b) with (["+"%char] ++ b).
    now apply headAvoids_rev_app.
  - apply noDoublePlus_app; try assumption.
    destruct b as [|c b']; [congruence|].
    cbn in Hbh.
    change (noDoublePlus ("+"%char :: c :: b'))
      with (negb (isPlus "+" && isPlus c) && noDoublePlus (c :: b')).
    rewrite Hbh, andb_false_r. exact Hbd.
  - unfold countPlus. rewrite List.filter_app, length_app. cbn. lia.
Qed.

Lemma join_chars (p p' : string) (rest : list string) :
  chars (join "+" (p :: p' :: rest))
  = chars p ++ "+"%char :: chars (join "+" (p' :: rest)).
Proof.
  change (join "+" (p :: p' :: rest))
    with (p +:+ "+" +:+ join "+" (p' :: rest)).
  now rewrite !chars_append.
Qed.

Lemma join_wellSeparated (pieces : list string) :
  pieces <> [] ->
  Forall (fun p => chars p <> []
                   /\ forallb (fun x => negb (isPlus x)) (chars p) = true)
    pieces ->
  wellSeparated (chars (join "+" pieces))
  /\ S (countPlus (chars (join "+" pieces))) = List.length pieces.
Proof.
  intros Hne Hall. induction Hall as [|p rest [Hp1 Hp2] Hrest IH];
    [congruence|]. clear Hne.
  destruct (word_wellSeparated (chars p) Hp1 Hp2) as [Hw Hc].
  destruct rest as [|p' rest'].
  - cbn [join]. rewrite Hc. auto.
  - destruct IH as [IHw IHc]; [discriminate|].
    rewrite join_chars.
    destruct (glue_wellSeparated _ _ Hw IHw) as [Hg Hn].
    split; [exact Hg|]. rewrite Hn, Hc. cbn [List.length] in *. lia.
Qed.

(** The pieces that [vercelSearchUrl] encodes and joins with [+] are
    exactly the words of the query: when the query is not blank, no piece
    is empty and no piece holds white space, however much white space
    surrounds or separates the words. The part of the link after [?q=]
    then is not empty, has no [+] at either end and no two in a row, and
    holds one [+] less than there are words: a [+] of the query itself is
    escaped, so each [+] of the link separates two words. *)
Theorem link_joins_the_words (q : string) :
  trim q <> ""%string ->
  Forall (fun p => isWord (chars p)) (split_WS_SPLIT (trim q))
  /\ vercelSearchUrl q
     = ("https://vercel.com/domains/search?q=" +:+ normalizedOf q)%string
  /\ wellSeparated (chars (normalizedOf q))
  /\ S (countPlus (chars (normalizedOf q)))
     = List.length (split_WS_SPLIT (trim q)).
Proof.
  intros Hne.
  assert (Hwords : Forall (fun p => isWord (chars p))
                     (split_WS_SPLIT (trim q))).
  { unfold split_WS_SPLIT, trim in *. rewrite chars_str.
    destruct (trimChars_clean (chars q)) as [He Hh].
    assert (Hl : trimChars (chars q) <> []).
    { intros E. rewrite E in Hne. now apply Hne. }
    destruct (splitRuns_nonempty _ He Hl) as [_ Hn]. specialize (Hn Hh).
    pose proof (splitRuns_no_whitespace (trimChars (chars q)) false) as Hw.
    apply Forall_map. rewrite Forall_forall in *. intros p Hp.
    rewrite chars_str. split; [apply Hn, Hp|apply Hw, Hp]. }
  split; [exact Hwords|]. split; [reflexivity|].
  unfold normalizedOf.
  destruct (join_wellSeparated
              (map encodeURIComponent (split_WS_SPLIT (trim q))))
    as [Hw Hc].
  - unfold split_WS_SPLIT.
    destruct (splitRuns_cons false (chars (trim q))) as (p & rest & ->).
    discriminate.
  - apply Forall_map. rewrite Forall_forall in *. intros p Hp.
    apply encodeURIComponent_shape. exact (proj1 (Hwords p Hp)).
  - split; [exact Hw|]. now rewrite Hc, length_map.
Qed.

Lemma link_joins_the_words_witness :
  trim "  my cool   a+b " <> ""%string
  /\ split_WS_SPLIT (trim "  my cool   a+b ")
     = ["my"; "cool"; "a+b"]%string
  /\ normalizedOf "  my cool   a+b " = "my+cool+a%2Bb"%string
  /\ wellSeparated (chars (normalizedOf "  my cool   a+b ")).
Proof.
  split; [vm_compute; discriminate|]. split; [reflexivity|].
  split; [vm_compute; reflexivity|].
  apply (link_joins_the_words "  my cool   a+b ").
  vm_compute. discriminate.
Defined.

End RenderFacts.
